(** * Gotham Night Patrol Simulator (src/lesson_3/solution.py)

    A shallow embedding of the patrol simulator of lesson 3.  Python's
    [random] module is modelled by a source of raw draws [src : nat -> Z]
    indexed by a call counter; exceptions are an inductive type; the patrol
    log is a list of messages (timestamps and the console echo are left out:
    both show the same message). *)

From Stdlib Require Import ZArith Lia List String Ascii Bool.
From Stdlib Require Import Sorting.Permutation Sorting.Sorted.
Import ListNotations.
Open Scope string_scope.
Open Scope Z_scope.
Open Scope list_scope.

(** ** Strings *)

Definition fmt (pieces : list string) : string := String.concat EmptyString pieces.

(** The newline character, written [\n] in the Python source. *)
Definition NL : string := String (ascii_of_nat 10) EmptyString.

Fixpoint str_of_nonneg (fuel : nat) (n : Z) (acc : string) : string :=
  match fuel with
  | O => acc
  | S f =>
      let acc' := String (ascii_of_nat (48 + Z.to_nat (n mod 10))) acc in
      if n <? 10 then acc' else str_of_nonneg f (n / 10) acc'
  end.

(** [str(n)] for a Python [int]: decimal digits, with a leading minus sign. *)
Definition str_of_Z (n : Z) : string :=
  let m := Z.abs n in
  let s := str_of_nonneg (S (Z.to_nat (Z.log2 m))) m EmptyString in
  if n <? 0 then String "-"%char s else s.

Definition str_of_nat (n : nat) : string := str_of_Z (Z.of_nat n).

(** [x in l] for a list of strings. *)
Definition mem (x : string) (l : list string) : bool := existsb (String.eqb x) l.

(** [d.get(k, default)] for a dict with string keys, kept as an association
    list in the order of its literal. *)
Fixpoint dict_get {V : Type} (k : string) (d : list (string * V)) (default : V) : V :=
  match d with
  | [] => default
  | (k', v) :: d' => if String.eqb k k' then v else dict_get k d' default
  end.

(** ** Data model *)

Record hero := mkHero { name : string; specialty : string; effectiveness : Z }.

(** A crime dict: keys ["type"], ["location"], ["severity"], ["status"]. *)
Record crime := mkCrime { ctype : string; location : string; severity : Z; status : string }.

Definition set_status (c : crime) (s : string) : crime :=
  mkCrime (ctype c) (location c) (severity c) s.

Definition GOTHAM_AREAS : list string :=
  ["Amusement Mile"; "Diamond District"; "East End"; "Financial District";
   "Gotham Heights"; "Robinson Park"; "Chinatown"; "Arkham Asylum"].

Definition BAT_FAMILY : list hero :=
  [mkHero "Batman" "Combat" 10;
   mkHero "Robin" "Acrobatics" 7;
   mkHero "Batgirl" "Hacking" 8;
   mkHero "Nightwing" "Stealth" 9;
   mkHero "Red Hood" "Firearms" 8].

Definition CRIME_TYPES : list string :=
  ["Robbery"; "Assault"; "Kidnapping"; "Drug Deal"; "Illegal Weapons";
   "Super-villain Activity"].

Definition SPECIALTY_MATCHING : list (string * list string) :=
  [("Robbery", ["Combat"; "Stealth"]);
   ("Assault", ["Combat"; "Acrobatics"]);
   ("Kidnapping", ["Stealth"; "Combat"]);
   ("Drug Deal", ["Stealth"; "Firearms"]);
   ("Illegal Weapons", ["Firearms"; "Combat"]);
   ("Super-villain Activity", ["Combat"; "Acrobatics"; "Firearms"])].

Definition CRIME_PRIORITY : list (string * Z) :=
  [("Super-villain Activity", 1);
   ("Kidnapping", 2);
   ("Assault", 3);
   ("Robbery", 4);
   ("Illegal Weapons", 5);
   ("Drug Deal", 6)].

(** ** The effect monad: random draws, the patrol log, exceptions *)

Inductive exn : Type :=
| ValueError (msg : string)
| ResourceException (msg : string)
| CrisisException (loc : string) (sev : Z) (msg : string)
| IndexError (msg : string).

Record st := mkSt { rng : nat; log : list string }.

Definition M (A : Type) : Type := st -> (exn + A) * st.

Definition ret {A : Type} (a : A) : M A := fun s => (inr a, s).

Definition bind {A B : Type} (m : M A) (k : A -> M B) : M B :=
  fun s => match m s with
           | (inl e, s') => (inl e, s')
           | (inr a, s') => k a s'
           end.

Definition raise {A : Type} (e : exn) : M A := fun s => (inl e, s).

(** [try: m except: handler] *)
Definition catch {A : Type} (m : M A) (handler : exn -> M A) : M A :=
  fun s => match m s with
           | (inl e, s') => handler e s'
           | (inr a, s') => (inr a, s')
           end.

Notation "'let*' x ':=' m 'in' k" := (bind m (fun x => k))
  (at level 200, x name, m at level 100, k at level 200).
Notation "m ;; k" := (bind m (fun _ => k)) (at level 100, right associativity).

(** [log_patrol_event(log_file, message)]: appends to the log file. *)
Definition log_patrol_event (message : string) : M unit :=
  fun s => (inr tt, mkSt (rng s) (log s ++ [message])).

Fixpoint log_all (messages : list string) : M unit :=
  match messages with
  | [] => ret tt
  | m :: ms => log_patrol_event m ;; log_all ms
  end.

Section Random.

(** The raw draws of the random source, one per call. *)
Variable src : nat -> Z.

Definition draw : M Z := fun s => (inr (src (rng s)), mkSt (S (rng s)) (log s)).

(** [random._randbelow(n)] *)
Definition randbelow (n : Z) : M Z := let* r := draw in ret (r mod n).

(** [random.randint(a, b)] *)
Definition randint (a b : Z) : M Z := let* r := randbelow (b - a + 1) in ret (a + r).

(** [random.random()] returns [k / 2^53] for a 53-bit integer [k]; we return [k]. *)
Definition random_k53 : M Z := let* r := draw in ret (r mod 2 ^ 53).

(** [random.choice(seq)] *)
Definition choice {A : Type} (l : list A) : M A :=
  match l with
  | [] => raise (IndexError "Cannot choose from an empty sequence")
  | d :: _ =>
      let* i := randbelow (Z.of_nat (List.length l)) in ret (nth (Z.to_nat i) l d)
  end.

Fixpoint remove_at {A : Type} (j : nat) (l : list A) : list A :=
  match l, j with
  | [], _ => []
  | _ :: l', O => l'
  | x :: l', S j' => x :: remove_at j' l'
  end.

(** [random.sample(population, k)]: each pick takes a uniformly chosen
    element out of the remaining pool. *)
Fixpoint sample_picks {A : Type} (k : nat) (pool : list A) : M (list A) :=
  match k with
  | O => ret []
  | S k' =>
      match pool with
      | [] => raise (IndexError "list index out of range")
      | d :: _ =>
          let* j := randbelow (Z.of_nat (List.length pool)) in
          let x := nth (Z.to_nat j) pool d in
          let* rest := sample_picks k' (remove_at (Z.to_nat j) pool) in
          ret (x :: rest)
      end
  end.

Definition random_sample {A : Type} (population : list A) (k : Z) : M (list A) :=
  if (k <? 0) || (Z.of_nat (List.length population) <? k)
  then raise (ValueError "Sample larger than population or is negative")
  else sample_picks (Z.to_nat k) population.

End Random.

(** ** Pure parts of the simulator *)

(** [CRIME_PRIORITY.get(c["type"], 999)] *)
Definition crime_priority (t : string) : Z := dict_get t CRIME_PRIORITY 999.

(** The sort key of [prioritize_crimes]: [(-c["severity"], priority)]. *)
Definition crime_key (c : crime) : Z * Z := (- severity c, crime_priority (ctype c)).

(** Python's [<=] on pairs of integers (lexicographic). *)
Definition key_le (a b : Z * Z) : bool :=
  (fst a <? fst b) || ((fst a =? fst b) && (snd a <=? snd b)).

Fixpoint insert_by {A : Type} (key : A -> Z * Z) (x : A) (l : list A) : list A :=
  match l with
  | [] => [x]
  | y :: l' => if key_le (key x) (key y) then x :: l else y :: insert_by key x l'
  end.

(** [sorted(xs, key=key)]: a stable sort on the key. *)
Fixpoint sort_by {A : Type} (key : A -> Z * Z) (l : list A) : list A :=
  match l with
  | [] => []
  | x :: l' => insert_by key x (sort_by key l')
  end.

Definition prioritize_crimes (crimes : list crime) : list crime := sort_by crime_key crimes.

(** [hero["specialty"] in SPECIALTY_MATCHING.get(crime["type"], [])] *)
Definition specialty_matches (h : hero) (c : crime) : bool :=
  mem (specialty h) (dict_get (ctype c) SPECIALTY_MATCHING []).

(** The score computed in the loop of [match_hero_to_crime]. *)
Definition hero_score (h : hero) (c : crime) : Z :=
  let score := effectiveness h in
  let score := if specialty_matches h c then score + 3 else score in
  if String.eqb (name h) "Batman" then score + 2 else score.

(** The loop of [match_hero_to_crime]: [if score > best_score: ...]. *)
Fixpoint best_hero_loop (heroes : list hero) (c : crime) (best_hero : option hero)
  (best_score : Z) : option hero * Z :=
  match heroes with
  | [] => (best_hero, best_score)
  | h :: t =>
      let score := hero_score h c in
      if best_score <? score then best_hero_loop t c (Some h) score
      else best_hero_loop t c best_hero best_score
  end.

(** Lines 162-181 of [dispatch_hero]: the clamped success chance. *)
Definition success_chance (h : hero) (c : crime) : Z :=
  let base_chance := effectiveness h * 10 in
  let specialty_bonus := if specialty_matches h c then 20 else 0 in
  let severity_penalty := severity c * 5 in
  let batman_bonus := if String.eqb (name h) "Batman" then 15 else 0 in
  let sc := Z.min 95 (base_chance + specialty_bonus - severity_penalty + batman_bonus) in
  Z.max 5 sc.

Record dispatch_result := mkResult { success : bool; message : string; details : string }.

Definition validate_patrol_config (num_heroes num_areas : Z) : M bool :=
  if num_heroes <? 1 then raise (ValueError "At least one hero must be deployed.")
  else if Z.of_nat (List.length BAT_FAMILY) <? num_heroes then
    raise (ValueError (fmt ["There are only "; str_of_nat (List.length BAT_FAMILY);
                            " heroes available."]))
  else if num_areas <? 1 then raise (ValueError "At least one area must be patrolled.")
  else if Z.of_nat (List.length GOTHAM_AREAS) <? num_areas then
    raise (ValueError (fmt ["There are only "; str_of_nat (List.length GOTHAM_AREAS);
                            " areas to patrol."]))
  else ret true.

(** [match_hero_to_crime(available_heroes, crime, log_file)]; [lf] tells
    whether a log file was passed. *)
Definition match_hero_to_crime (available_heroes : list hero) (c : crime) (lf : bool)
  : M (option hero) :=
  match available_heroes with
  | [] =>
      (if lf then log_patrol_event "No heroes available to handle crime!" else ret tt) ;;
      ret None
  | _ =>
      let '(best_hero, best_score) := best_hero_loop available_heroes c None (-1) in
      (match best_hero with
       | Some b =>
           if lf then
             log_patrol_event (fmt ["Selected "; name b; " (score: "; str_of_Z best_score;
                                    ") for "; ctype c; " in "; location c])
           else ret tt
       | None => ret tt
       end) ;;
      ret best_hero
  end.

(** The crime dicts are shared: [prioritize_crimes(crime_events)] returns the
    same dicts, and the dispatch loop writes [crime["status"]] through them.
    The run keeps the dicts in a store (the list [crime_events]) and handles
    references to them (indices into the store). *)
Definition no_crime : crime := mkCrime "" "" 0 "".

Fixpoint update_nth {A : Type} (i : nat) (x : A) (l : list A) : list A :=
  match l, i with
  | [], _ => []
  | _ :: t, O => x :: t
  | y :: t, S i' => y :: update_nth i' x t
  end.

(** [crime["status"] = s] for the dict referenced by [i]. *)
Definition store_set_status (i : nat) (s : string) (store : list crime) : list crime :=
  update_nth i (set_status (nth i store no_crime) s) store.

(** [prioritize_crimes] applied to references into the store. *)
Definition prioritize_refs (store : list crime) (refs : list nat) : list nat :=
  sort_by (fun i => crime_key (nth i store no_crime)) refs.

(** [random.random() < 0.7]: the double nearest to 0.7 is
    [6305039478318694 / 2^53]. *)
Definition FLOAT_0_7_K : Z := 6305039478318694.

Section Patrol.

Variable src : nat -> Z.

Definition dispatch_hero (h : hero) (c : crime) (lf : bool) : M dispatch_result :=
  (if specialty_matches h c && lf then
     log_patrol_event (fmt [name h; "'s "; specialty h; " specialty is effective against ";
                            ctype c; "!"])
   else ret tt) ;;
  let sc := success_chance h c in
  let* roll := randint src 1 100 in
  let succ := roll <=? sc in
  let area := location c in
  let det := fmt ["Success chance: "; str_of_Z sc; "%, Roll: "; str_of_Z roll] in
  let result :=
    if succ then
      mkResult true (fmt [name h; " successfully stopped the "; ctype c; " in "; area; "."]) det
    else
      mkResult false (fmt [name h; " failed to stop the "; ctype c; " in "; area; "."]) det in
  (if lf then
     log_patrol_event (message result) ;;
     log_patrol_event (fmt ["Details: "; details result])
   else ret tt) ;;
  ret result.

(** The [for] loop of [generate_crime_events]. *)
Fixpoint gen_events (k : nat) (used_areas : list string) (events : list crime)
  : M (list crime) :=
  match k with
  | O => ret events
  | S k' =>
      let* crime_type := choice src CRIME_TYPES in
      let available_areas := filter (fun a => negb (mem a used_areas)) GOTHAM_AREAS in
      match available_areas with
      | [] => ret events
      | _ =>
          let* loc := choice src available_areas in
          let* sev := (if String.eqb crime_type "Super-villain Activity"
                       then randint src 7 10 else randint src 3 8) in
          gen_events k' (loc :: used_areas) (events ++ [mkCrime crime_type loc sev "Active"])
      end
  end.

(** [generate_crime_events(num_events=None)]; [range(n)] is empty for [n <= 0]. *)
Definition generate_crime_events (num_events : option Z) : M (list crime) :=
  let* n := match num_events with
            | None => randint src 1 3
            | Some n => ret n
            end in
  gen_events (Z.to_nat n) [] [].

(** Lines 279-295 of [run_patrol]: the emergency reallocation. *)
Definition reallocate (crime_events : list crime) (patrol_areas : list string)
  (available_heroes : list hero) : M (list string) :=
  let unpatrolled := filter (fun c => negb (mem (location c) patrol_areas)) crime_events in
  match unpatrolled with
  | [] => ret patrol_areas
  | _ =>
      log_patrol_event (fmt [NL; "WARNING: "; str_of_nat (List.length unpatrolled);
                             " crimes detected outside patrol areas!"]) ;;
      let* k := random_k53 src in
      if k <? FLOAT_0_7_K then
        match prioritize_crimes unpatrolled with
        | [] => raise (IndexError "list index out of range")
        | highest_priority :: _ =>
            log_patrol_event (fmt ["High-priority situation detected: ";
                                   ctype highest_priority; " in ";
                                   location highest_priority; "!"]) ;;
            log_patrol_event "Reallocating resources to respond..." ;;
            let patrol_areas' := patrol_areas ++ [location highest_priority] in
            if (List.length available_heroes =? 0)%nat then
              raise (ResourceException "No available heroes to respond to the crisis!")
            else ret patrol_areas'
        end
      else ret patrol_areas
  end.

(** Lines 308-342 of [run_patrol]: the dispatch loop over the prioritized
    references ([time.sleep] is a no-op here). *)
Fixpoint dispatch_loop (patrol_areas : list string) (order : list nat)
  (available_heroes : list hero) (store : list crime) (successes failures unhandled : Z)
  : M (list hero * list crime * (Z * Z * Z)) :=
  match order with
  | [] => ret (available_heroes, store, (successes, failures, unhandled))
  | i :: rest =>
      let c := nth i store no_crime in
      if mem (location c) patrol_areas then
        let* best := match_hero_to_crime available_heroes c true in
        match best with
        | Some b =>
            let available1 :=
              filter (fun h => negb (String.eqb (name h) (name b))) available_heroes in
            let* result := dispatch_hero b c true in
            let '(successes', failures', store') :=
              if success result then (successes + 1, failures, store_set_status i "Resolved" store)
              else (successes, failures + 1, store_set_status i "Failed" store) in
            log_patrol_event (fmt [name b; " is available for patrol again."]) ;;
            dispatch_loop patrol_areas rest (available1 ++ [b]) store' successes' failures'
              unhandled
        | None =>
            log_patrol_event (fmt ["No heroes available to handle "; ctype c; " in ";
                                   location c; "!"]) ;;
            dispatch_loop patrol_areas rest available_heroes
              (store_set_status i "Unhandled" store) successes failures (unhandled + 1)
        end
      else
        log_patrol_event (fmt [ctype c; " in "; location c; " is outside patrol areas."]) ;;
        dispatch_loop patrol_areas rest available_heroes
          (store_set_status i "Outside Patrol" store) successes failures (unhandled + 1)
  end.

End Patrol.

(** The variables of [run_patrol] at the end of the dispatch loop. *)
Record patrol_state := mkPatrolState {
  selected_heroes : list hero;
  available_heroes : list hero;
  patrol_areas : list string;
  crime_events : list crime;
  successes : Z;
  failures : Z;
  unhandled : Z }.

Definition report_hero (h : hero) : string :=
  fmt [name h; " - Specialty: "; specialty h; ", Effectiveness: ";
       str_of_Z (effectiveness h); "/10"].

Definition report_crime (ic : nat * crime) : string :=
  let '(i, c) := ic in
  fmt ["Crime #"; str_of_nat i; ": "; ctype c; " in "; location c; " (Severity: ";
       str_of_Z (severity c); "/10)"].

Definition report_status (c : crime) : string :=
  fmt [ctype c; " in "; location c; " - Status: "; status c].

(** The [except] clauses of [run_patrol]. *)
Definition patrol_handler (e : exn) : M bool :=
  match e with
  | ResourceException m =>
      log_patrol_event (fmt [NL; "RESOURCE ERROR: "; m]) ;;
      log_patrol_event "Requesting additional Bat-Family members for backup!" ;;
      ret false
  | CrisisException loc _ m =>
      log_patrol_event (fmt [NL; "CRISIS ALERT: "; m]) ;;
      log_patrol_event (fmt ["Emergency response needed at "; loc; "!"]) ;;
      ret false
  | ValueError m =>
      log_patrol_event (fmt [NL; "CONFIGURATION ERROR: "; m]) ;;
      ret false
  | IndexError m =>
      log_patrol_event (fmt [NL; "UNEXPECTED ERROR: "; m]) ;;
      ret false
  end.

Section Run.

Variable src : nat -> Z.

(** Lines 255-342 of [run_patrol]: configuring, generating, prioritizing and
    dispatching. *)
Definition patrol_phases (num_heroes num_areas : Z) : M patrol_state :=
  validate_patrol_config num_heroes num_areas ;;
  let* selected := random_sample src BAT_FAMILY num_heroes in
  let available := selected in
  let* areas := random_sample src GOTHAM_AREAS num_areas in
  log_patrol_event (fmt [NL; "=== PATROL TEAM ==="]) ;;
  log_all (map report_hero selected) ;;
  log_patrol_event (fmt [NL; "=== PATROL AREAS ==="]) ;;
  log_all (map (fun area => fmt ["Patrolling: "; area]) areas) ;;
  let* events := generate_crime_events src None in
  log_patrol_event (fmt [NL; "=== REPORTED CRIMES ("; str_of_nat (List.length events);
                         ") ==="]) ;;
  log_all (map report_crime (combine (seq 1 (List.length events)) events)) ;;
  let* areas := reallocate src events areas available in
  let prioritized := prioritize_refs events (seq 0 (List.length events)) in
  log_patrol_event (fmt [NL; "=== BEGINNING PATROL OPERATIONS ==="]) ;;
  let* res := dispatch_loop src areas prioritized available events 0 0 0 in
  let '(available', events', (s, f, u)) := res in
  ret (mkPatrolState selected available' areas events' s f u).

(** The body of the [try] block of [run_patrol]. *)
Definition patrol_body (num_heroes num_areas : Z) : M bool :=
  let* p := patrol_phases num_heroes num_areas in
  log_patrol_event (fmt [NL; "=== PATROL SUMMARY ==="]) ;;
  log_patrol_event (fmt ["Crimes successfully stopped: "; str_of_Z (successes p)]) ;;
  log_patrol_event (fmt ["Failed attempts: "; str_of_Z (failures p)]) ;;
  log_patrol_event (fmt ["Unhandled crimes: "; str_of_Z (unhandled p)]) ;;
  log_patrol_event (fmt [NL; "=== FINAL CRIME STATUS ==="]) ;;
  log_all (map report_status (crime_events p)) ;;
  let patrol_success := (failures p <? successes p) && (unhandled p <=? 1) in
  log_patrol_event (fmt [NL; "Patrol deemed ";
                         if patrol_success then "SUCCESSFUL" else "PROBLEMATIC"; "."]) ;;
  log_patrol_event "===== GOTHAM NIGHT PATROL COMPLETE =====" ;;
  ret patrol_success.

(** Lines 249-251 of [run_patrol]; [setup_patrol_log] only creates the log
    file. *)
Definition patrol_begin (num_heroes num_areas : Z) : M unit :=
  log_patrol_event "===== GOTHAM NIGHT PATROL BEGINNING =====" ;;
  log_patrol_event (fmt ["Deploying "; str_of_Z num_heroes; " heroes to patrol ";
                         str_of_Z num_areas; " areas"]).

(** [run_patrol(num_heroes, num_areas)] *)
Definition run_patrol (num_heroes num_areas : Z) : M bool :=
  patrol_begin num_heroes num_areas ;;
  catch (patrol_body num_heroes num_areas) patrol_handler.

End Run.

(** ** [main]: the configuration dialogue *)

(** A line typed at a prompt of [input()], or Ctrl-C ([KeyboardInterrupt]);
    the end of the list is the end of standard input. *)
Inductive input_line : Type :=
| Line (s : string)
| Interrupt.

(** The exceptions [input()] raises. *)
Inductive input_exn : Type :=
| KeyboardInterrupt
| EOFError (msg : string).

(** [str(e)] *)
Definition exn_str (e : exn) : string :=
  match e with
  | ValueError m | ResourceException m | CrisisException _ _ m | IndexError m => m
  end.

Definition PROMPT_HEROES : string := "Number of heroes to deploy (1-5): ".
Definition PROMPT_AREAS : string := "Number of areas to patrol (1-8): ".

Section Main.

Variable src : nat -> Z.

(** [int(s)] of Python's built-ins, [None] where it raises [ValueError]. *)
Variable int_of_string : string -> option Z.

(** The [while True] loop of [main]: the configuration it breaks out with, or
    the exception [input()] raised, and what it wrote to the console (each
    prompt of [input()] and each [print]). *)
Fixpoint read_config (inputs : list input_line) : (input_exn + Z * Z) * list string :=
  match inputs with
  | [] => (inl (EOFError "EOF when reading a line"), [PROMPT_HEROES])
  | Interrupt :: _ => (inl KeyboardInterrupt, [PROMPT_HEROES])
  | Line s1 :: rest =>
      match int_of_string s1 with
      | None =>
          let '(r, out) := read_config rest in
          (r, PROMPT_HEROES :: "Please enter valid numbers." :: out)
      | Some num_heroes =>
          match rest with
          | [] => (inl (EOFError "EOF when reading a line"), [PROMPT_HEROES; PROMPT_AREAS])
          | Interrupt :: _ => (inl KeyboardInterrupt, [PROMPT_HEROES; PROMPT_AREAS])
          | Line s2 :: rest' =>
              match int_of_string s2 with
              | None =>
                  let '(r, out) := read_config rest' in
                  (r, PROMPT_HEROES :: PROMPT_AREAS :: "Please enter valid numbers." :: out)
              | Some num_areas =>
                  if (1 <=? num_heroes) && (num_heroes <=? 5)
                     && (1 <=? num_areas) && (num_areas <=? 8)
                  then (inr (num_heroes, num_areas), [PROMPT_HEROES; PROMPT_AREAS])
                  else
                    let '(r, out) := read_config rest' in
                    (r, PROMPT_HEROES :: PROMPT_AREAS
                          :: "Please enter values within the specified ranges." :: out)
              end
          end
      end
  end.

Definition MAIN_HEADER : list string :=
  [fmt [NL; "===== GOTHAM NIGHT PATROL SIMULATOR ====="];
   "Configure the night's patrol parameters:"].

Definition MAIN_FOOTER : string := fmt [NL; "Patrol logs saved. BATMAN OUT."].

(** [main()]: the console output, given the lines typed and the state [r0]
    of the random generator.  [run_patrol] writes to a fresh log file, and
    [log_patrol_event] echoes each message to the console. *)
Definition main (inputs : list input_line) (r0 : nat) : list string :=
  let '(cfg, out) := read_config inputs in
  MAIN_HEADER ++ out
  ++ match cfg with
     | inl KeyboardInterrupt => [fmt [NL; NL; "Patrol simulation aborted by user."]]
     | inl (EOFError m) => [fmt [NL; "Unexpected error: "; m]]
     | inr (num_heroes, num_areas) =>
         let '(r, s') := run_patrol src num_heroes num_areas (mkSt r0 []) in
         fmt [NL; "Initiating patrol sequence..."] :: log s'
         ++ [match r with
             | inr true => fmt [NL; "Patrol completed successfully. Returning to the Batcave."]
             | inr false =>
                 fmt [NL; "Patrol encountered issues. Review the patrol log for details."]
             | inl e => fmt [NL; "Unexpected error: "; exn_str e]
             end]
     end
  ++ [MAIN_FOOTER].

End Main.

Definition st0 : st := mkSt 0 [].
Definition src_list (l : list Z) : nat -> Z := fun n => nth n l 0.

(** A concrete random source and the run of [run_patrol src 2 3] on it, up to
    the end of the dispatch pass. *)
Definition demo_src : nat -> Z :=
  src_list [3; 7; 1; 4; 2; 9; 5; 0; 8; 6; 11; 13; 17; 19; 23; 29; 31; 37; 41; 43].
Definition demo_s0 : st := snd (patrol_begin 2 3 st0).
Definition demo_phase : patrol_state :=
  match fst (patrol_phases demo_src 2 3 demo_s0) with
  | inr p => p
  | inl _ => mkPatrolState [] [] [] [] 0 0 0
  end.
Definition demo_s1 : st := snd (patrol_phases demo_src 2 3 demo_s0).
Definition demo_crime : crime := mkCrime "Robbery" "Amusement Mile" 5 "Active".
Definition demo_robbery : crime := mkCrime "Robbery" "East End" 5 "Active".
Definition demo_batman : hero := mkHero "Batman" "Combat" 10.

(** A dispatch pass over one crime in the patrol areas and one outside. *)
Definition demo_loop : M (list hero * list crime * (Z * Z * Z)) :=
  dispatch_loop demo_src ["East End"] [0%nat; 1%nat] [demo_batman]
    [demo_robbery; demo_crime] 0 0 0.
Definition demo_loop_r : list hero * list crime * (Z * Z * Z) :=
  match fst (demo_loop st0) with
  | inr r => r
  | inl _ => ([], [], (0, 0, 0))
  end.
Definition demo_loop_s : st := snd (demo_loop st0).

(** A stand-in for [int()] on the few strings typed below. *)
Definition demo_int (s : string) : option Z :=
  if String.eqb s "2" then Some 2
  else if String.eqb s "3" then Some 3
  else if String.eqb s "9" then Some 9
  else None.
Definition demo_inputs : list input_line :=
  [Line "x"; Line "9"; Line "3"; Line "2"; Line "3"].
Definition demo_inputs_interrupted : list input_line := [Line "2"; Line "x"; Interrupt].

(** ** Spec-side definitions *)

(** [clamp(x, lo, hi)] in the words of the spec. *)
Definition clamp (x lo hi : Z) : Z := if x <? lo then lo else if hi <? x then hi else x.

(** ** Monad lemmas *)

Lemma bind_inr {A B : Type} (m : M A) (k : A -> M B) (s s' : st) (a : A) :
  m s = (inr a, s') -> bind m k s = k a s'.
Proof. intros H. unfold bind. now rewrite H. Qed.

Lemma bind_inl {A B : Type} (m : M A) (k : A -> M B) (s s' : st) (e : exn) :
  m s = (inl e, s') -> bind m k s = (inl e, s').
Proof. intros H. unfold bind. now rewrite H. Qed.

Ltac run_monad :=
  repeat (unfold bind, ret, raise, log_patrol_event, randint, randbelow, draw,
            random_k53 in *; simpl in *).

(** ** C1: the success chance of [dispatch_hero] *)

(** C1. For every hero and crime, [dispatch_hero] computes the success chance
    [clamp(effectiveness*10 + (20 if the specialty matches) - severity*5 +
    (15 for Batman), 5, 95)], which lies in [5,95]; Batman with effectiveness
    10 on a matching crime of severity 3 gets 95 (not 120); and the outcome
    is a success exactly when the one roll drawn, in [1,100], is at most that
    chance. *)
Theorem dispatch_hero_success_chance (src : nat -> Z) (h : hero) (c : crime) (lf : bool) (s : st) :
  success_chance h c =
    clamp (effectiveness h * 10 + (if specialty_matches h c then 20 else 0)
           - severity c * 5 + (if String.eqb (name h) "Batman" then 15 else 0)) 5 95
  /\ 5 <= success_chance h c <= 95
  /\ success_chance (mkHero "Batman" "Combat" 10) (mkCrime "Robbery" "East End" 3 "Active") = 95
  /\ (let roll := 1 + src (rng s) mod 100 in
      1 <= roll <= 100 /\
      exists res s', dispatch_hero src h c lf s = (inr res, s')
                     /\ rng s' = S (rng s)
                     /\ success res = (roll <=? success_chance h c)).
Proof.
  split; [| split; [| split]].
  - unfold success_chance, clamp. cbv zeta.
    set (x := effectiveness h * 10 + _ - _ + _).
    destruct (Z.ltb_spec x 5); destruct (Z.ltb_spec 95 x); lia.
  - unfold success_chance. cbv zeta. lia.
  - reflexivity.
  - cbv zeta. split; [pose proof (Z.mod_pos_bound (src (rng s)) 100 ltac:(lia)); lia |].
    unfold dispatch_hero.
    destruct (specialty_matches h c && lf), lf; run_monad;
      eexists; eexists; (split; [reflexivity | split; [reflexivity |]]);
      destruct (_ <=? success_chance h c); reflexivity.
Qed.

(** ** C2: [prioritize_crimes] *)

Section SortBy.

Context {A : Type} (key : A -> Z * Z).

Lemma key_le_refl (a : Z * Z) : key_le a a = true.
Proof. unfold key_le. rewrite Z.ltb_irrefl, Z.eqb_refl, Z.leb_refl. reflexivity. Qed.

Lemma key_le_false (a b : Z * Z) :
  key_le a b = false -> fst b < fst a \/ (fst a = fst b /\ snd b < snd a).
Proof.
  unfold key_le. destruct a as [a1 a2], b as [b1 b2]; simpl.
  destruct (Z.ltb_spec a1 b1), (Z.eqb_spec a1 b1), (Z.leb_spec a2 b2); simpl; intros; lia.
Qed.

Lemma key_le_true (a b : Z * Z) :
  key_le a b = true -> fst a < fst b \/ (fst a = fst b /\ snd a <= snd b).
Proof.
  unfold key_le. destruct a as [a1 a2], b as [b1 b2]; simpl.
  destruct (Z.ltb_spec a1 b1), (Z.eqb_spec a1 b1), (Z.leb_spec a2 b2); simpl; intros; lia.
Qed.

Lemma key_le_iff (a b : Z * Z) :
  key_le a b = true <-> fst a < fst b \/ (fst a = fst b /\ snd a <= snd b).
Proof.
  split; [apply key_le_true |].
  destruct (key_le a b) eqn:E; [easy |]. apply key_le_false in E. lia.
Qed.

Definition key_ord (x y : A) : Prop := key_le (key x) (key y) = true.

Lemma key_ord_trans (x y z : A) : key_ord x y -> key_ord y z -> key_ord x z.
Proof. unfold key_ord. rewrite !key_le_iff. lia. Qed.

Lemma insert_by_perm (x : A) (l : list A) : Permutation (insert_by key x l) (x :: l).
Proof.
  induction l as [| y l IH]; simpl; [reflexivity |].
  destruct (key_le (key x) (key y)); [reflexivity |].
  rewrite IH. apply perm_swap.
Qed.

Lemma sort_by_perm (l : list A) : Permutation (sort_by key l) l.
Proof.
  induction l as [| x l IH]; simpl; [reflexivity |].
  rewrite insert_by_perm. now apply perm_skip.
Qed.

Lemma insert_by_sorted (x : A) (l : list A) :
  Sorted key_ord l -> Sorted key_ord (insert_by key x l).
Proof.
  induction 1 as [| y l Hs IH Hhd]; simpl.
  - repeat constructor.
  - destruct (key_le (key x) (key y)) eqn:E.
    + constructor; [now constructor |]. now constructor.
    + constructor; [exact IH |].
      assert (Hyx : key_ord y x).
      { unfold key_ord. apply key_le_iff. apply key_le_false in E. lia. }
      destruct l as [| z l]; simpl; [now constructor |].
      inversion Hhd; subst.
      destruct (key_le (key x) (key z)); now constructor.
Qed.

Lemma sort_by_sorted (l : list A) : Sorted key_ord (sort_by key l).
Proof. induction l; simpl; [constructor | now apply insert_by_sorted]. Qed.

Definition key_eqb (a b : Z * Z) : bool := (fst a =? fst b) && (snd a =? snd b).

Lemma insert_by_filter (k : Z * Z) (x : A) (l : list A) :
  filter (fun a => key_eqb (key a) k) (insert_by key x l)
  = if key_eqb (key x) k then x :: filter (fun a => key_eqb (key a) k) l
    else filter (fun a => key_eqb (key a) k) l.
Proof.
  induction l as [| y l IH]; simpl; [now destruct (key_eqb (key x) k) |].
  destruct (key_le (key x) (key y)) eqn:E; simpl; [reflexivity |].
  rewrite IH.
  destruct (key_eqb (key x) k) eqn:Ex; [| reflexivity].
  destruct (key_eqb (key y) k) eqn:Ey; [| reflexivity].
  exfalso. apply key_le_false in E.
  unfold key_eqb in Ex, Ey. apply andb_prop in Ex, Ey.
  destruct Ex as [Ex1 Ex2], Ey as [Ey1 Ey2].
  apply Z.eqb_eq in Ex1, Ex2, Ey1, Ey2. lia.
Qed.

Lemma sort_by_stable (k : Z * Z) (l : list A) :
  filter (fun a => key_eqb (key a) k) (sort_by key l) = filter (fun a => key_eqb (key a) k) l.
Proof.
  induction l as [| x l IH]; simpl; [reflexivity |].
  rewrite insert_by_filter, IH. reflexivity.
Qed.

End SortBy.

Lemma StronglySorted_weaken {A : Type} (R R' : A -> A -> Prop) (l : list A) :
  (forall x y, R x y -> R' x y) -> StronglySorted R l -> StronglySorted R' l.
Proof.
  intros HR. induction 1 as [| x l Hs IH Hall]; constructor; [exact IH |].
  eapply Forall_impl; [| exact Hall]. intros y. apply HR.
Qed.

Lemma dict_get_absent {V : Type} (k : string) (d : list (string * V)) (default : V) :
  ~ In k (map fst d) -> dict_get k d default = default.
Proof.
  induction d as [| [k' v] d IH]; simpl; intros Hn; [reflexivity |].
  destruct (String.eqb_spec k k'); [subst; tauto |].
  apply IH. tauto.
Qed.

(** C2. [prioritize_crimes] returns a permutation of its input (the same
    crime records, statuses untouched), ordered by severity descending and,
    among equal severities, by the priority table ascending; types missing
    from the table get a priority above every listed one, so they sort last;
    and it is stable: crimes with equal severity and priority keep their
    input order. *)
Theorem prioritize_crimes_sorted_stable (crimes : list crime) :
  Permutation (prioritize_crimes crimes) crimes
  /\ StronglySorted
       (fun c1 c2 => severity c2 < severity c1
                     \/ (severity c1 = severity c2
                         /\ crime_priority (ctype c1) <= crime_priority (ctype c2)))
       (prioritize_crimes crimes)
  /\ (forall (sev p : Z),
        filter (fun c => (severity c =? sev) && (crime_priority (ctype c) =? p))
               (prioritize_crimes crimes)
        = filter (fun c => (severity c =? sev) && (crime_priority (ctype c) =? p)) crimes)
  /\ (forall t1 t2, In t1 (map fst CRIME_PRIORITY) -> ~ In t2 (map fst CRIME_PRIORITY) ->
        crime_priority t1 < crime_priority t2).
Proof.
  split; [| split; [| split]].
  - apply sort_by_perm.
  - unfold prioritize_crimes.
    apply (StronglySorted_weaken (key_ord crime_key)).
    + unfold key_ord, crime_key. intros c1 c2 H. apply key_le_iff in H. simpl in H. lia.
    + apply Sorted_StronglySorted; [exact (key_ord_trans crime_key) |].
      apply sort_by_sorted.
  - intros sev p.
    assert (Heq : forall c, (severity c =? sev) && (crime_priority (ctype c) =? p)
                            = key_eqb (crime_key c) (- sev, p)).
    { intros c. unfold key_eqb, crime_key. simpl.
      destruct (Z.eqb_spec (severity c) sev), (Z.eqb_spec (- severity c) (- sev)); 
        simpl; try reflexivity; lia. }
    rewrite !(filter_ext _ _ Heq). apply sort_by_stable.
  - intros t1 t2 H1 H2. unfold crime_priority at 2. rewrite dict_get_absent by exact H2.
    simpl in H1.
    repeat (destruct H1 as [<- | H1]; [reflexivity |]). destruct H1.
Qed.

(** ** C3: [match_hero_to_crime] *)

Lemma best_hero_loop_spec (c : crime) (heroes : list hero) :
  forall best bs r rs,
  best_hero_loop heroes c best bs = (r, rs) ->
  (r = best /\ rs = bs /\ Forall (fun h => hero_score h c <= bs) heroes)
  \/ (exists pre h post, heroes = pre ++ h :: post /\ r = Some h /\ rs = hero_score h c
        /\ bs < hero_score h c
        /\ Forall (fun h' => hero_score h' c < hero_score h c) pre
        /\ Forall (fun h' => hero_score h' c <= hero_score h c) post).
Proof.
  induction heroes as [| h t IH]; simpl; intros best bs r rs Hl.
  - inversion Hl; subst. left. auto.
  - destruct (Z.ltb_spec bs (hero_score h c)) as [Hlt | Hge].
    + destruct (IH _ _ _ _ Hl) as [(-> & -> & Hall) | (pre & h' & post & -> & -> & -> & Hlt' & Hpre & Hpost)].
      * right. exists [], h, t.
        repeat match goal with |- _ /\ _ => split end; auto; try lia.
      * right. exists (h :: pre), h', post. repeat match goal with |- _ /\ _ => split end; auto; try lia;
          constructor; solve [lia | exact Hpre].
    + destruct (IH _ _ _ _ Hl) as [(-> & -> & Hall) | (pre & h' & post & -> & -> & -> & Hlt' & Hpre & Hpost)].
      * left. repeat match goal with |- _ /\ _ => split end; auto;
          constructor; solve [lia | exact Hall].
      * right. exists (h :: pre), h', post. repeat match goal with |- _ /\ _ => split end; auto; try lia;
          constructor; solve [lia | exact Hpre].
Qed.

Lemma hero_score_nonneg (h : hero) (c : crime) :
  0 <= effectiveness h -> 0 <= hero_score h c.
Proof.
  unfold hero_score. cbv zeta.
  destruct (specialty_matches h c), (String.eqb (name h) "Batman"); lia.
Qed.

(** C3. For every pool of heroes with non-negative effectiveness (the roster
    has effectiveness 1..10), [match_hero_to_crime] returns the sentinel
    [None] on an empty pool, without raising; on a non-empty pool it returns
    a hero of maximal score [effectiveness + 3 (specialty in the crime type's
    affinity list) + 2 (Batman)], and every hero seen before it scores
    strictly less: ties go to the first hero in pool order. *)
Theorem match_hero_to_crime_argmax (heroes : list hero) (c : crime) (lf : bool) (s : st)
  (Heff : Forall (fun h => 0 <= effectiveness h) heroes) :
  (forall h, hero_score h c = effectiveness h + (if specialty_matches h c then 3 else 0)
                              + (if String.eqb (name h) "Batman" then 2 else 0))
  /\ (heroes = [] -> fst (match_hero_to_crime heroes c lf s) = inr None)
  /\ (heroes <> [] ->
      exists pre h post, heroes = pre ++ h :: post
        /\ fst (match_hero_to_crime heroes c lf s) = inr (Some h)
        /\ (forall h', In h' heroes -> hero_score h' c <= hero_score h c)
        /\ (forall h', In h' pre -> hero_score h' c < hero_score h c)).
Proof.
  split; [| split].
  - intros h. unfold hero_score. cbv zeta.
    destruct (specialty_matches h c), (String.eqb (name h) "Batman"); lia.
  - intros ->. destruct lf; reflexivity.
  - intros Hne.
    destruct (best_hero_loop heroes c None (-1)) as [r rs] eqn:Hl.
    destruct (best_hero_loop_spec c heroes None (-1) r rs Hl)
      as [(-> & -> & Hall) | (pre & h & post & Heq & -> & -> & Hlt & Hpre & Hpost)].
    + exfalso. destruct heroes as [| h0 t]; [easy |].
      inversion Hall; inversion Heff; subst.
      pose proof (hero_score_nonneg h0 c ltac:(assumption)). lia.
    + exists pre, h, post. split; [exact Heq |]. split.
      * unfold match_hero_to_crime. destruct heroes as [| h0 t]; [easy |].
        rewrite Hl. destruct lf; reflexivity.
      * split.
        -- intros h' Hin. rewrite Heq in Hin. apply in_app_or in Hin.
           destruct Hin as [Hin | [<- | Hin]].
           ++ rewrite Forall_forall in Hpre. specialize (Hpre h' Hin). lia.
           ++ lia.
           ++ rewrite Forall_forall in Hpost. auto.
        -- intros h' Hin. rewrite Forall_forall in Hpre. auto.
Qed.

Definition robbery_east_end : crime := mkCrime "Robbery" "East End" 5 "Active".

Lemma match_hero_to_crime_argmax_witness :
  Forall (fun h => 0 <= effectiveness h) BAT_FAMILY
  /\ ((forall h, hero_score h robbery_east_end
                 = effectiveness h + (if specialty_matches h robbery_east_end then 3 else 0)
                   + (if String.eqb (name h) "Batman" then 2 else 0))
      /\ (BAT_FAMILY = [] -> fst (match_hero_to_crime BAT_FAMILY robbery_east_end true st0) = inr None)
      /\ (BAT_FAMILY <> [] ->
          exists pre h post, BAT_FAMILY = pre ++ h :: post
            /\ fst (match_hero_to_crime BAT_FAMILY robbery_east_end true st0) = inr (Some h)
            /\ (forall h', In h' BAT_FAMILY -> hero_score h' robbery_east_end <= hero_score h robbery_east_end)
            /\ (forall h', In h' pre -> hero_score h' robbery_east_end < hero_score h robbery_east_end))).
Proof.
  assert (H : Forall (fun h => 0 <= effectiveness h) BAT_FAMILY)
    by (repeat constructor; simpl; lia).
  split; [exact H |].
  apply (match_hero_to_crime_argmax BAT_FAMILY robbery_east_end true st0 H).
Defined.

(** ** C4: [generate_crime_events] *)

Lemma randint_range (src : nat -> Z) (a b : Z) (s : st) :
  a <= b ->
  exists v, randint src a b s = (inr v, mkSt (S (rng s)) (log s)) /\ a <= v <= b.
Proof.
  intros Hab. run_monad. eexists. split; [reflexivity |].
  pose proof (Z.mod_pos_bound (src (rng s)) (b - a + 1) ltac:(lia)). lia.
Qed.

Lemma choice_in {A : Type} (src : nat -> Z) (l : list A) (s : st) :
  l <> [] -> exists x s', choice src l s = (inr x, s') /\ In x l.
Proof.
  destruct l as [| d l']; [easy |]. intros _.
  unfold choice, bind, ret, randbelow, draw.
  eexists; eexists; split; [reflexivity |].
  apply nth_In.
  set (n := Z.of_nat (List.length (d :: l'))).
  assert (Hn : 0 < n) by (unfold n; simpl; lia).
  pose proof (Z.mod_pos_bound (src (rng s)) n Hn).
  assert (Z.of_nat (Z.to_nat (src (rng s) mod n)) < n) by lia.
  unfold n in *. lia.
Qed.

Definition generated_ok (c : crime) : Prop :=
  status c = "Active" /\ In (ctype c) CRIME_TYPES /\ In (location c) GOTHAM_AREAS
  /\ (if String.eqb (ctype c) "Super-villain Activity"
      then 7 <= severity c <= 10 else 3 <= severity c <= 8).

Lemma GOTHAM_AREAS_NoDup : NoDup GOTHAM_AREAS.
Proof. repeat constructor; simpl; intuition discriminate. Qed.

Lemma mem_true (x : string) (l : list string) : mem x l = true <-> In x l.
Proof.
  unfold mem. rewrite existsb_exists. split.
  - intros (y & Hy & E). apply String.eqb_eq in E. now subst.
  - intros H. exists x. split; [exact H | apply String.eqb_refl].
Qed.

Lemma mem_false (x : string) (l : list string) : mem x l = false <-> ~ In x l.
Proof.
  rewrite <- mem_true. destruct (mem x l); split; congruence.
Qed.

Lemma gen_events_spec (src : nat -> Z) (k : nat) :
  forall used events s,
  (forall x, In x used <-> In x (map location events)) ->
  NoDup (map location events) -> Forall generated_ok events ->
  exists evs s', gen_events src k used events s = (inr evs, s')
    /\ NoDup (map location evs) /\ Forall generated_ok evs
    /\ List.length evs = Nat.min (List.length events + k) 8.
Proof.
  assert (Hle : forall events, NoDup (map location events) -> Forall generated_ok events ->
                  (List.length events <= 8)%nat).
  { intros events Hnd Hok. rewrite <- (length_map location).
    change 8%nat with (List.length GOTHAM_AREAS). apply NoDup_incl_length; [exact Hnd |].
    intros x Hx. apply in_map_iff in Hx. destruct Hx as (c & <- & Hc).
    rewrite Forall_forall in Hok. apply Hok, Hc. }
  induction k as [| k IH]; intros used events s Hused Hnd Hok; cbn [gen_events].
  - exists events, s. repeat split; auto. pose proof (Hle events Hnd Hok). lia.
  - destruct (choice_in src CRIME_TYPES s ltac:(discriminate)) as (ct & s1 & Hct & Hin_ct).
    rewrite (bind_inr _ _ _ _ _ Hct).
    destruct (filter (fun a => negb (mem a used)) GOTHAM_AREAS) as [| a0 rest] eqn:Havail.
    + exists events, s1. repeat split; auto.
      assert (Hfull : (8 <= List.length events)%nat).
      { rewrite <- (length_map location).
        change 8%nat with (List.length GOTHAM_AREAS). apply NoDup_incl_length;
          [exact GOTHAM_AREAS_NoDup |].
        intros x Hx. apply Hused.
        destruct (mem x used) eqn:E; [now apply mem_true |].
        assert (Hf : In x (filter (fun a => negb (mem a used)) GOTHAM_AREAS))
          by (apply filter_In; rewrite E; auto).
        rewrite Havail in Hf. destruct Hf. }
      pose proof (Hle events Hnd Hok). lia.
    + destruct (choice_in src (a0 :: rest) s1 ltac:(discriminate)) as (loc & s2 & Hloc & Hin_loc).
      rewrite (bind_inr _ _ _ _ _ Hloc).
      rewrite <- Havail in Hin_loc. apply filter_In in Hin_loc.
      destruct Hin_loc as [Hloc_g Hloc_new]. apply negb_true_iff, mem_false in Hloc_new.
      assert (Hsev : exists sev s3,
                 (if String.eqb ct "Super-villain Activity" then randint src 7 10
                  else randint src 3 8) s2 = (inr sev, s3)
                 /\ (if String.eqb ct "Super-villain Activity"
                     then 7 <= sev <= 10 else 3 <= sev <= 8)).
      { destruct (String.eqb ct "Super-villain Activity").
        - destruct (randint_range src 7 10 s2 ltac:(lia)) as (v & Hv & Hr). eauto.
        - destruct (randint_range src 3 8 s2 ltac:(lia)) as (v & Hv & Hr). eauto. }
      destruct Hsev as (sev & s3 & Hsev & Hrange).
      rewrite (bind_inr _ _ _ _ _ Hsev).
      set (ev := mkCrime ct loc sev "Active").
      destruct (IH (loc :: used) (events ++ [ev]) s3) as (evs & s' & Hrun & Hnd' & Hok' & Hlen).
      * intros x. rewrite map_app. simpl. rewrite in_app_iff, <- Hused. simpl. tauto.
      * rewrite map_app. simpl. apply NoDup_app; [exact Hnd | repeat constructor; auto |].
        intros x Hx [<- | []]. apply Hloc_new, Hused, Hx.
      * apply Forall_app. split; [exact Hok |]. constructor; [| constructor].
        unfold generated_ok, ev; simpl. repeat split; auto.
      * exists evs, s'. repeat split; auto.
        rewrite Hlen, length_app. simpl. lia.
Qed.

(** Each pass of the [for] loop of [generate_crime_events] that appends an
    incident takes three draws, in order: the type, the location and the
    severity. *)
Lemma gen_events_draws (src : nat -> Z) (k : nat) :
  forall used events s evs s',
  gen_events src k used events s = (inr evs, s') ->
  exists extra, evs = events ++ extra
    /\ forall j c, nth_error extra j = Some c ->
       ctype c = nth (Z.to_nat (src (rng s + 3 * j)%nat mod 6)) CRIME_TYPES "Robbery"
       /\ severity c = (if String.eqb (ctype c) "Super-villain Activity"
                        then 7 + src (rng s + 3 * j + 2)%nat mod 4
                        else 3 + src (rng s + 3 * j + 2)%nat mod 6).
Proof.
  induction k as [| k IH]; intros used events s evs s' H; cbn [gen_events] in H.
  - unfold ret in H. injection H as <- _. exists []. rewrite app_nil_r.
    split; [reflexivity |]. intros [| j] c Hj; discriminate.
  - set (ct := nth (Z.to_nat (src (rng s) mod Z.of_nat (List.length CRIME_TYPES)))
                 CRIME_TYPES "Robbery").
    assert (Hct : choice src CRIME_TYPES s = (inr ct, mkSt (S (rng s)) (log s)))
      by reflexivity.
    rewrite (bind_inr _ _ _ _ _ Hct) in H.
    destruct (filter (fun a => negb (mem a used)) GOTHAM_AREAS) as [| a0 rest] eqn:Havail.
    + unfold ret in H. injection H as <- _. exists []. rewrite app_nil_r.
      split; [reflexivity |]. intros [| j] c Hj; discriminate.
    + set (loc := nth (Z.to_nat (src (S (rng s)) mod Z.of_nat (List.length (a0 :: rest))))
                    (a0 :: rest) a0).
      assert (Hloc : choice src (a0 :: rest) (mkSt (S (rng s)) (log s))
                     = (inr loc, mkSt (S (S (rng s))) (log s))) by reflexivity.
      rewrite (bind_inr _ _ _ _ _ Hloc) in H.
      set (lo := if String.eqb ct "Super-villain Activity" then 7 else 3).
      set (w := if String.eqb ct "Super-villain Activity" then 4 else 6).
      assert (Hsev : (if String.eqb ct "Super-villain Activity" then randint src 7 10
                      else randint src 3 8) (mkSt (S (S (rng s))) (log s))
                     = (inr (lo + src (S (S (rng s))) mod w),
                        mkSt (S (S (S (rng s)))) (log s))).
      { unfold lo, w. destruct (String.eqb ct "Super-villain Activity"); reflexivity. }
      rewrite (bind_inr _ _ _ _ _ Hsev) in H.
      destruct (IH _ _ _ _ _ H) as (extra & Hevs & Hdraws).
      exists (mkCrime ct loc (lo + src (S (S (rng s))) mod w) "Active" :: extra).
      split; [rewrite Hevs, <- app_assoc; reflexivity |].
      intros [| j] c Hj.
      * cbn in Hj. injection Hj as <-. cbn [ctype severity].
        replace (rng s + 3 * 0)%nat with (rng s) by lia.
        try replace (rng s + 3 * 0 + 2)%nat with (S (S (rng s))) by lia.
        try replace (rng s + 2)%nat with (S (S (rng s))) by lia.
        split; [reflexivity |]. unfold lo, w, ct.
        destruct (String.eqb _ "Super-villain Activity"); reflexivity.
      * cbn in Hj. destruct (Hdraws j c Hj) as [Ht Hs]. cbn [rng] in Ht, Hs.
        replace (rng s + 3 * S j)%nat with (S (S (S (rng s))) + 3 * j)%nat by lia.
        replace (rng s + 3 * S j + 2)%nat with (S (S (S (rng s))) + 3 * j + 2)%nat by lia.
        split; assumption.
Qed.

(** C4. Every batch returned by [generate_crime_events] (which never raises)
    has pairwise distinct locations; each incident has status ["Active"], a
    type from the catalog, a location among the Gotham areas, and a severity
    in [7,10] for ["Super-villain Activity"] and in [3,8] otherwise; and the
    batch has [min(requested, 8)] incidents: once the 8 areas are used up the
    generation stops early instead of failing. Each incident takes its own
    fresh draws: the [j]-th incident's type is the draw [start + 3j] mod 6
    into the catalog, and its severity is [7 + r mod 4] (Super-villain
    Activity) or [3 + r mod 6] (otherwise) for the draw [r] at
    [start + 3j + 2], where [start] is the first draw after the one that
    picks the number of events. *)
Theorem generate_crime_events_spec (src : nat -> Z) (num_events : option Z) (s : st) :
  let requested := match num_events with
                   | Some n => Z.to_nat n
                   | None => Z.to_nat (1 + src (rng s) mod 3)
                   end in
  let start := match num_events with
               | Some _ => rng s
               | None => S (rng s)
               end in
  exists events s', generate_crime_events src num_events s = (inr events, s')
     /\ NoDup (map location events)
     /\ Forall generated_ok events
     /\ List.length events = Nat.min requested 8
     /\ forall j c, nth_error events j = Some c ->
          ctype c = nth (Z.to_nat (src (start + 3 * j)%nat mod 6)) CRIME_TYPES "Robbery"
          /\ severity c = (if String.eqb (ctype c) "Super-villain Activity"
                           then 7 + src (start + 3 * j + 2)%nat mod 4
                           else 3 + src (start + 3 * j + 2)%nat mod 6).
Proof.
  cbv zeta. unfold generate_crime_events.
  assert (Hn : (match num_events with
                | None => randint src 1 3
                | Some n => ret n
                end) s
               = (inr (match num_events with
                       | Some n => n
                       | None => 1 + src (rng s) mod 3
                       end),
                  mkSt (match num_events with Some _ => rng s | None => S (rng s) end) (log s))).
  { destruct num_events; [destruct s |]; reflexivity. }
  rewrite (bind_inr _ _ _ _ _ Hn).
  set (n := match num_events with
            | Some n => n
            | None => 1 + src (rng s) mod 3
            end).
  destruct (gen_events_spec src (Z.to_nat n) [] []
              (mkSt (match num_events with Some _ => rng s | None => S (rng s) end) (log s)))
    as (evs & s' & Hrun & Hnd & Hok & Hlen).
  { simpl. tauto. }
  { constructor. }
  { constructor. }
  destruct (gen_events_draws src _ _ _ _ _ _ Hrun) as (extra & Hevs & Hdraws).
  cbn [app] in Hevs. subst extra.
  exists evs, s'. repeat split; auto.
  - rewrite Hlen. unfold n. destruct num_events; reflexivity.
  - exact (proj1 (Hdraws j c H)).
  - exact (proj2 (Hdraws j c H)).
Qed.

(** ** The run loop: helper lemmas *)

Lemma bind_inv {A B : Type} (m : M A) (k : A -> M B) (s s'' : st) (b : B) :
  bind m k s = (inr b, s'') -> exists a s', m s = (inr a, s') /\ k a s' = (inr b, s'').
Proof.
  unfold bind. destruct (m s) as [[e | a] s'] eqn:E; [discriminate |].
  intros H. eauto.
Qed.

Lemma log_all_run (ms : list string) (s : st) :
  exists s', log_all ms s = (inr tt, s').
Proof.
  revert s. induction ms as [| m ms IH]; intros s; simpl; [eexists; reflexivity |].
  unfold bind, log_patrol_event. apply IH.
Qed.

Lemma length_update_nth {A : Type} (i : nat) (x : A) (l : list A) :
  List.length (update_nth i x l) = List.length l.
Proof. revert i. induction l as [| y l IH]; intros [| i]; simpl; auto. Qed.

Lemma nth_update_nth_same {A : Type} (i : nat) (x d : A) (l : list A) :
  (i < List.length l)%nat -> nth i (update_nth i x l) d = x.
Proof.
  revert i. induction l as [| y l IH]; intros [| i] Hi; simpl in *; try lia; auto;
    apply IH; lia.
Qed.

Lemma nth_update_nth_other {A : Type} (i j : nat) (x d : A) (l : list A) :
  i <> j -> nth j (update_nth i x l) d = nth j l d.
Proof.
  revert i j. induction l as [| y l IH]; intros [| i] [| j] Hij; simpl; auto; try lia;
    apply IH; lia.
Qed.

(** The number of crimes of the store with a given status. *)
Definition count_status (t : string) (store : list crime) : Z :=
  Z.of_nat (List.length (filter (fun c => String.eqb (status c) t) store)).

Lemma count_status_update (t : string) (i : nat) (x : crime) (store : list crime) :
  (i < List.length store)%nat ->
  count_status t (update_nth i x store)
  = count_status t store - (if String.eqb (status (nth i store no_crime)) t then 1 else 0)
    + (if String.eqb (status x) t then 1 else 0).
Proof.
  unfold count_status. revert i.
  induction store as [| y store IH]; intros [| i] Hi;
    cbn [update_nth nth filter List.length] in *; try lia.
  - destruct (String.eqb (status x) t), (String.eqb (status y) t);
      cbn [List.length]; lia.
  - specialize (IH i ltac:(lia)).
    destruct (String.eqb (status y) t); cbn [List.length]; lia.
Qed.

Lemma remove_at_perm {A : Type} (j : nat) (l : list A) (d : A) :
  (j < List.length l)%nat -> Permutation l (nth j l d :: remove_at j l).
Proof.
  revert j. induction l as [| y l IH]; intros [| j] Hj; simpl in *; try lia.
  - reflexivity.
  - rewrite (IH j ltac:(lia)) at 1. apply perm_swap.
Qed.

Lemma length_remove_at {A : Type} (j : nat) (l : list A) :
  (j < List.length l)%nat -> List.length (remove_at j l) = pred (List.length l).
Proof.
  revert j. induction l as [| y l IH]; intros [| j] Hj; simpl in *; try lia.
  rewrite IH by lia. destruct l; simpl in *; lia.
Qed.

Lemma sample_picks_spec {A : Type} (src : nat -> Z) (k : nat) :
  forall (pool : list A) s, (k <= List.length pool)%nat ->
  exists res rest s', sample_picks src k pool s = (inr res, s')
    /\ Permutation (res ++ rest) pool /\ List.length res = k.
Proof.
  induction k as [| k IH]; intros pool s Hk; cbn [sample_picks].
  - exists [], pool, s. repeat split; auto.
  - destruct pool as [| d pool']; [simpl in Hk; lia |].
    set (pool := d :: pool') in *.
    set (j := Z.to_nat (src (rng s) mod Z.of_nat (List.length pool))).
    assert (Hj : (j < List.length pool)%nat).
    { unfold j. assert (Hp : 0 < Z.of_nat (List.length pool)) by (unfold pool; simpl; lia).
      pose proof (Z.mod_pos_bound (src (rng s)) _ Hp). lia. }
    destruct (IH (remove_at j pool) (mkSt (S (rng s)) (log s)))
      as (res & rest & s' & Hrun & Hperm & Hlen).
    { rewrite length_remove_at by exact Hj. lia. }
    exists (nth j pool d :: res), rest, s'. split; [| split].
    + cbv [bind randbelow draw ret]. fold j. rewrite Hrun. reflexivity.
    + cbn [app]. rewrite Hperm. symmetry. apply remove_at_perm, Hj.
    + simpl. lia.
Qed.

Lemma random_sample_spec {A : Type} (src : nat -> Z) (population : list A) (k : Z) (s : st) :
  0 <= k <= Z.of_nat (List.length population) ->
  exists res rest s', random_sample src population k s = (inr res, s')
    /\ Permutation (res ++ rest) population /\ Z.of_nat (List.length res) = k.
Proof.
  intros Hk. unfold random_sample.
  destruct (Z.ltb_spec k 0); [lia |].
  destruct (Z.ltb_spec (Z.of_nat (List.length population)) k); [lia |]. simpl.
  destruct (sample_picks_spec src (Z.to_nat k) population s ltac:(lia))
    as (res & rest & s' & Hrun & Hperm & Hlen).
  exists res, rest, s'. repeat split; auto. lia.
Qed.

Lemma log_bind {B : Type} (m : string) (k : unit -> M B) (s : st) :
  bind (log_patrol_event m) k s = k tt (mkSt (rng s) (log s ++ [m])).
Proof. reflexivity. Qed.

Lemma match_hero_some (heroes : list hero) (c : crime) (lf : bool) (s : st) :
  heroes <> [] -> Forall (fun h => 0 <= effectiveness h) heroes ->
  exists b s', match_hero_to_crime heroes c lf s = (inr (Some b), s') /\ In b heroes.
Proof.
  intros Hne Heff.
  destruct (best_hero_loop heroes c None (-1)) as [r rs] eqn:Hl.
  destruct (best_hero_loop_spec c heroes None (-1) r rs Hl)
    as [(-> & -> & Hall) | (pre & h & post & Heq & -> & -> & Hlt & Hpre & Hpost)].
  - exfalso. destruct heroes as [| h0 t]; [easy |].
    inversion Hall; inversion Heff; subst.
    pose proof (hero_score_nonneg h0 c ltac:(assumption)). lia.
  - unfold match_hero_to_crime. destruct heroes as [| h0 t]; [easy |].
    rewrite Hl. exists h. destruct lf; (eexists; split; [reflexivity |]);
      rewrite Heq; apply in_or_app; simpl; auto.
Qed.

Lemma dispatch_hero_total (src : nat -> Z) (h : hero) (c : crime) (lf : bool) (s : st) :
  exists res s', dispatch_hero src h c lf s = (inr res, s').
Proof.
  unfold dispatch_hero. destruct (specialty_matches h c && lf), lf; run_monad; eauto.
Qed.

Lemma filter_keep_all (b : hero) (l : list hero) :
  (forall h, In h l -> name h <> name b) ->
  filter (fun h => negb (String.eqb (name h) (name b))) l = l.
Proof.
  induction l as [| y l IH]; intros Hn; simpl; [reflexivity |].
  destruct (String.eqb_spec (name y) (name b)) as [E | E].
  - exfalso. apply (Hn y); simpl; auto.
  - simpl. f_equal. apply IH. intros h Hh. apply Hn. simpl. auto.
Qed.

(** Taking [b] out of the pool by name and appending it again permutes the
    pool, when names are unique. *)
Lemma borrow_return_perm (b : hero) (avail : list hero) :
  NoDup (map name avail) -> In b avail ->
  Permutation (filter (fun h => negb (String.eqb (name h) (name b))) avail ++ [b]) avail.
Proof.
  induction avail as [| y t IH]; intros Hnd Hb; [destruct Hb |].
  simpl in Hnd. inversion Hnd as [| ? ? Hny Hndt]; subst.
  destruct Hb as [<- | Hb].
  - simpl. rewrite String.eqb_refl. simpl.
    rewrite filter_keep_all.
    + rewrite Permutation_app_comm. reflexivity.
    + intros h Hh E. apply Hny. rewrite <- E. apply in_map, Hh.
  - simpl. destruct (String.eqb_spec (name y) (name b)) as [E | E].
    + exfalso. apply Hny. rewrite E. apply in_map, Hb.
    + simpl. apply perm_skip. apply IH; assumption.
Qed.

Definition final_status_ok (areas : list string) (before after : crime) : Prop :=
  exists t, after = set_status before t
    /\ (if mem (location before) areas then t = "Resolved" \/ t = "Failed"
        else t = "Outside Patrol").

Definition loop_post (areas : list string) (order : list nat) (avail : list hero)
  (store : list crime) (su fa un : Z) (avail' : list hero) (store' : list crime)
  (su' fa' un' : Z) : Prop :=
  Permutation avail' avail
  /\ List.length store' = List.length store
  /\ (forall j, ~ In j order -> nth j store' no_crime = nth j store no_crime)
  /\ (forall j, In j order -> final_status_ok areas (nth j store no_crime) (nth j store' no_crime))
  /\ su' = su + count_status "Resolved" store' - count_status "Resolved" store
  /\ fa' = fa + count_status "Failed" store' - count_status "Failed" store
  /\ un' = un + (count_status "Outside Patrol" store' - count_status "Outside Patrol" store)
             + (count_status "Unhandled" store' - count_status "Unhandled" store).

Lemma loop_post_step (areas : list string) (i : nat) (rest : list nat) (store : list crime)
  (X : string) (avail avail_new avail' : list hero) (store' : list crime)
  (su fa un su' fa' un' : Z) :
  ~ In i rest -> (i < List.length store)%nat -> status (nth i store no_crime) = "Active" ->
  (if mem (location (nth i store no_crime)) areas then X = "Resolved" \/ X = "Failed"
   else X = "Outside Patrol") ->
  Permutation avail_new avail ->
  loop_post areas rest avail_new (store_set_status i X store)
    (su + if String.eqb X "Resolved" then 1 else 0)
    (fa + if String.eqb X "Failed" then 1 else 0)
    (un + if String.eqb X "Outside Patrol" then 1 else 0) avail' store' su' fa' un' ->
  loop_post areas (i :: rest) avail store su fa un avail' store' su' fa' un'.
Proof.
  intros Hnin Hlt Hact HX Hperm (Hp & Hlen & Hout & Hin & Hsu & Hfa & Hun).
  unfold store_set_status in *.
  assert (Hcnt : forall t, count_status t (update_nth i (set_status (nth i store no_crime) X) store)
                           = count_status t store
                             - (if String.eqb "Active" t then 1 else 0)
                             + (if String.eqb X t then 1 else 0)).
  { intros t. rewrite count_status_update by exact Hlt. rewrite Hact. reflexivity. }
  rewrite !Hcnt in *.
  split; [| split; [| split; [| split]]].
  - rewrite Hp. exact Hperm.
  - rewrite Hlen. apply length_update_nth.
  - intros j Hj. rewrite Hout by (simpl in Hj; tauto).
    apply nth_update_nth_other. simpl in Hj. tauto.
  - intros j [<- | Hj].
    + rewrite Hout by exact Hnin. rewrite nth_update_nth_same by exact Hlt.
      exists X. split; [reflexivity | exact HX].
    + specialize (Hin j Hj).
      assert (Hij : i <> j) by (intros ->; contradiction).
      rewrite nth_update_nth_other in Hin by exact Hij. exact Hin.
  - destruct (mem (location (nth i store no_crime)) areas);
      [destruct HX as [-> | ->] | subst X]; simpl in *; lia.
Qed.

Lemma dispatch_loop_spec (src : nat -> Z) (areas : list string) (order : list nat) :
  forall avail store su fa un s,
  NoDup order -> Forall (fun i => (i < List.length store)%nat) order ->
  Forall (fun i => status (nth i store no_crime) = "Active") order ->
  NoDup (map name avail) -> avail <> [] -> Forall (fun h => 0 <= effectiveness h) avail ->
  exists avail' store' su' fa' un' s',
    dispatch_loop src areas order avail store su fa un s
      = (inr (avail', store', (su', fa', un')), s')
    /\ loop_post areas order avail store su fa un avail' store' su' fa' un'.
Proof.
  induction order as [| i rest IH];
    intros avail store su fa un s Hnd Hlt Hact Hnames Hne Heff.
  - exists avail, store, su, fa, un, s. split; [reflexivity |].
    repeat split; auto; try lia. intros j [].
  - inversion Hnd as [| ? ? Hnin Hndr]; subst.
    inversion Hlt as [| ? ? Hlti Hltr]; subst.
    inversion Hact as [| ? ? Hacti Hactr]; subst.
    assert (Hactr' : forall X, Forall (fun j => status (nth j (store_set_status i X store) no_crime)
                                                = "Active") rest).
    { intros X. rewrite Forall_forall in Hactr |- *. intros j Hj.
      unfold store_set_status. rewrite nth_update_nth_other by (intros ->; contradiction).
      apply Hactr, Hj. }
    assert (Hltr' : forall X, Forall (fun j => (j < List.length (store_set_status i X store))%nat)
                                     rest).
    { intros X. unfold store_set_status. rewrite length_update_nth. exact Hltr. }
    cbn [dispatch_loop].
    set (c := nth i store no_crime).
    destruct (mem (location c) areas) eqn:Hmem.
    + destruct (match_hero_some avail c true s Hne Heff) as (b & s1 & Hm & Hb).
      rewrite (bind_inr _ _ _ _ _ Hm).
      destruct (dispatch_hero_total src b c true s1) as (res & s2 & Hd).
      cbv beta iota. rewrite (bind_inr _ _ _ _ _ Hd).
      set (avail1 := filter (fun h => negb (String.eqb (name h) (name b))) avail).
      assert (Hperm : Permutation (avail1 ++ [b]) avail) by (apply borrow_return_perm; auto).
      assert (Hnames' : NoDup (map name (avail1 ++ [b]))).
      { eapply Permutation_NoDup; [| exact Hnames]. apply Permutation_map.
        symmetry. exact Hperm. }
      assert (Hne' : avail1 ++ [b] <> []) by (destruct avail1; discriminate).
      assert (Heff' : Forall (fun h => 0 <= effectiveness h) (avail1 ++ [b])).
      { rewrite Forall_forall in Heff |- *. intros h Hh. apply Heff.
        eapply Permutation_in; [exact Hperm | exact Hh]. }
      destruct (success res); cbv beta iota; rewrite log_bind;
        set (s3 := mkSt (rng s2) (log s2 ++ [fmt [name b; " is available for patrol again."]])).
      * destruct (IH (avail1 ++ [b]) (store_set_status i "Resolved" store) (su + 1) fa un
                  s3 Hndr (Hltr' _) (Hactr' _) Hnames' Hne' Heff')
          as (avail' & store' & su' & fa' & un' & s' & Hrun & Hpost).
        exists avail', store', su', fa', un', s'. split; [exact Hrun |].
        eapply (loop_post_step _ _ _ _ "Resolved" _ (avail1 ++ [b])); eauto.
        -- fold c. rewrite Hmem. auto.
        -- simpl. replace (un + 0) with un by lia. replace (fa + 0) with fa by lia.
           exact Hpost.
      * destruct (IH (avail1 ++ [b]) (store_set_status i "Failed" store) su (fa + 1) un
                  s3 Hndr (Hltr' _) (Hactr' _) Hnames' Hne' Heff')
          as (avail' & store' & su' & fa' & un' & s' & Hrun & Hpost).
        exists avail', store', su', fa', un', s'. split; [exact Hrun |].
        eapply (loop_post_step _ _ _ _ "Failed" _ (avail1 ++ [b])); eauto.
        -- fold c. rewrite Hmem. auto.
        -- simpl. replace (un + 0) with un by lia. replace (su + 0) with su by lia.
           exact Hpost.
    + rewrite log_bind.
      destruct (IH avail (store_set_status i "Outside Patrol" store) su fa (un + 1)
                  (mkSt (rng s) (log s ++ [fmt [ctype c; " in "; location c;
                                               " is outside patrol areas."]])) Hndr (Hltr' _) (Hactr' _) Hnames Hne Heff)
          as (avail' & store' & su' & fa' & un' & s' & Hrun & Hpost).
      exists avail', store', su', fa', un', s'. split; [exact Hrun |].
      eapply (loop_post_step _ _ _ _ "Outside Patrol" _ avail); eauto.
      * fold c. rewrite Hmem. reflexivity.
      * simpl. replace (su + 0) with su by lia. replace (fa + 0) with fa by lia.
        exact Hpost.
Qed.

(** ** The run loop: configuring, generating, dispatching *)

Lemma validate_ok (h a : Z) (s : st) :
  1 <= h <= 5 -> 1 <= a <= 8 -> validate_patrol_config h a s = (inr true, s).
Proof.
  intros Hh Ha. unfold validate_patrol_config.
  change (Z.of_nat (List.length BAT_FAMILY)) with 5.
  change (Z.of_nat (List.length GOTHAM_AREAS)) with 8.
  destruct (Z.ltb_spec h 1); [lia |]. destruct (Z.ltb_spec 5 h); [lia |].
  destruct (Z.ltb_spec a 1); [lia |]. destruct (Z.ltb_spec 8 a); [lia |].
  reflexivity.
Qed.

Lemma validate_inv (h a : Z) (s s' : st) (b : bool) :
  validate_patrol_config h a s = (inr b, s') -> 1 <= h <= 5 /\ 1 <= a <= 8.
Proof.
  unfold validate_patrol_config.
  change (Z.of_nat (List.length BAT_FAMILY)) with 5.
  change (Z.of_nat (List.length GOTHAM_AREAS)) with 8.
  destruct (Z.ltb_spec h 1); [discriminate |]. destruct (Z.ltb_spec 5 h); [discriminate |].
  destruct (Z.ltb_spec a 1); [discriminate |]. destruct (Z.ltb_spec 8 a); [discriminate |].
  intros _. lia.
Qed.

Lemma patrol_phases_valid (src : nat -> Z) (h a : Z) (s s' : st) (p : patrol_state) :
  patrol_phases src h a s = (inr p, s') -> 1 <= h <= 5 /\ 1 <= a <= 8.
Proof.
  unfold patrol_phases. intros H. apply bind_inv in H.
  destruct H as (b & s1 & Hv & _). eapply validate_inv, Hv.
Qed.

Lemma generate_crime_events_ok (src : nat -> Z) (num_events : option Z) (s : st) :
  exists events s', generate_crime_events src num_events s = (inr events, s')
    /\ Forall generated_ok events.
Proof.
  unfold generate_crime_events.
  assert (Hn : exists n s1, (match num_events with
                             | None => randint src 1 3
                             | Some n => ret n
                             end) s = (inr n, s1)).
  { destruct num_events; run_monad; eauto. }
  destruct Hn as (n & s1 & Hn). rewrite (bind_inr _ _ _ _ _ Hn).
  destruct (gen_events_spec src (Z.to_nat n) [] [] s1) as (evs & s' & Hrun & _ & Hok & _);
    simpl; try tauto; try constructor.
  eauto.
Qed.

Lemma random_k53_bind {B : Type} (src : nat -> Z) (k : Z -> M B) (s : st) :
  bind (random_k53 src) k s = k (src (rng s) mod 2 ^ 53) (mkSt (S (rng s)) (log s)).
Proof. reflexivity. Qed.

Lemma reallocate_ok (src : nat -> Z) (events : list crime) (areas : list string)
  (avail : list hero) (s : st) :
  avail <> [] -> exists areas' s', reallocate src events areas avail s = (inr areas', s').
Proof.
  intros Hne. unfold reallocate. cbv zeta.
  destruct (filter (fun c => negb (mem (location c) areas)) events) as [| c0 cs] eqn:Hu;
    [do 2 eexists; reflexivity |].
  rewrite log_bind, random_k53_bind.
  destruct (_ <? FLOAT_0_7_K); [| do 2 eexists; reflexivity].
  destruct (prioritize_crimes (c0 :: cs)) as [| hp t] eqn:Hp.
  - exfalso. pose proof (Permutation_length (sort_by_perm crime_key (c0 :: cs))).
    unfold prioritize_crimes in Hp. rewrite Hp in H. discriminate.
  - rewrite !log_bind. destruct (List.length avail =? 0)%nat eqn:E.
    + apply Nat.eqb_eq, length_zero_iff_nil in E. contradiction.
    + do 2 eexists; reflexivity.
Qed.

Lemma BAT_FAMILY_names : NoDup (map name BAT_FAMILY).
Proof. repeat constructor; simpl; intuition discriminate. Qed.

Lemma BAT_FAMILY_eff : Forall (fun h => 0 <= effectiveness h) BAT_FAMILY.
Proof. repeat constructor; simpl; lia. Qed.

Lemma count_status_active (t : string) (l : list crime) :
  t <> "Active" -> Forall (fun c => status c = "Active") l -> count_status t l = 0.
Proof.
  intros Ht Hl. unfold count_status. induction Hl as [| c l Hc Hl IH]; [reflexivity |].
  cbn [filter]. rewrite Hc.
  destruct (String.eqb_spec "Active" t); [congruence | exact IH].
Qed.

(** What holds of the variables of [run_patrol] after the dispatch loop. *)
Definition phase_post (p : patrol_state) : Prop :=
  Permutation (available_heroes p) (selected_heroes p)
  /\ selected_heroes p <> []
  /\ Forall (fun c => (In (location c) (patrol_areas p)
                       /\ (status c = "Resolved" \/ status c = "Failed"))
                      \/ (~ In (location c) (patrol_areas p) /\ status c = "Outside Patrol"))
            (crime_events p)
  /\ successes p = count_status "Resolved" (crime_events p)
  /\ failures p = count_status "Failed" (crime_events p)
  /\ unhandled p = count_status "Outside Patrol" (crime_events p)
                   + count_status "Unhandled" (crime_events p).

Ltac step_log_all :=
  match goal with
  | |- context [bind (log_all ?ms) ?k ?st] =>
      let s' := fresh "s" in let H := fresh "Hlog" in
      destruct (log_all_run ms st) as (s' & H);
      rewrite (bind_inr _ k _ _ _ H); cbv beta
  end.

Lemma patrol_phases_spec (src : nat -> Z) (h a : Z) (s : st) :
  1 <= h <= 5 -> 1 <= a <= 8 ->
  exists p s', patrol_phases src h a s = (inr p, s') /\ phase_post p.
Proof.
  intros Hh Ha. unfold patrol_phases.
  rewrite (bind_inr _ _ _ _ _ (validate_ok h a s Hh Ha)). cbv beta.
  destruct (random_sample_spec src BAT_FAMILY h s ltac:(simpl; lia))
    as (sel & selr & s1 & Hs1 & Hp1 & Hl1).
  rewrite (bind_inr _ _ _ _ _ Hs1). cbv beta.
  destruct (random_sample_spec src GOTHAM_AREAS a s1 ltac:(simpl; lia))
    as (ar & arr & s2 & Hs2 & _ & _).
  rewrite (bind_inr _ _ _ _ _ Hs2). cbv beta.
  rewrite log_bind. step_log_all. rewrite log_bind. step_log_all.
  match goal with
  | |- context [bind (generate_crime_events src None) ?k ?st] =>
      destruct (generate_crime_events_ok src None st) as (events & s5 & Hg & Hok);
      rewrite (bind_inr _ k _ _ _ Hg); cbv beta
  end.
  rewrite log_bind. step_log_all.
  assert (Hne : sel <> []) by (intros ->; simpl in Hl1; lia).
  match goal with
  | |- context [bind (reallocate src events ar sel) ?k ?st] =>
      destruct (reallocate_ok src events ar sel st Hne) as (ar' & s6 & Hr);
      rewrite (bind_inr _ k _ _ _ Hr); cbv beta zeta
  end.
  rewrite log_bind.
  set (order := prioritize_refs events (seq 0 (List.length events))).
  assert (Hperm_order : Permutation order (seq 0 (List.length events)))
    by apply sort_by_perm.
  assert (Hnames : NoDup (map name sel)).
  { apply (NoDup_app_remove_r _ (map name selr)). rewrite <- map_app.
    eapply Permutation_NoDup; [| exact BAT_FAMILY_names].
    apply Permutation_map. symmetry. exact Hp1. }
  assert (Heff : Forall (fun h => 0 <= effectiveness h) sel).
  { pose proof BAT_FAMILY_eff as Hb. rewrite Forall_forall in Hb |- *.
    intros x Hx. apply Hb. eapply Permutation_in; [exact Hp1 |].
    apply in_or_app. auto. }
  assert (Hord_lt : forall j, In j order -> (j < List.length events)%nat).
  { intros j Hj. eapply Permutation_in in Hj; [| exact Hperm_order].
    apply in_seq in Hj. lia. }
  destruct (dispatch_loop_spec src ar' order sel events 0 0 0
              (mkSt (rng s6) (log s6 ++ [fmt [NL; "=== BEGINNING PATROL OPERATIONS ==="]])))
    as (avail' & store' & su & fa & un & s7 & Hd & Hpost).
  { eapply Permutation_NoDup; [symmetry; exact Hperm_order | apply seq_NoDup]. }
  { apply Forall_forall. exact Hord_lt. }
  { apply Forall_forall. intros j Hj. rewrite Forall_forall in Hok.
    apply Hok, nth_In, Hord_lt, Hj. }
  { exact Hnames. }
  { exact Hne. }
  { exact Heff. }
  rewrite (bind_inr _ _ _ _ _ Hd). cbv beta iota.
  do 2 eexists. split; [reflexivity |].
  destruct Hpost as (Hp & Hlen & Hout & Hin & Hsu & Hfa & Hun).
  assert (Hact : Forall (fun c => status c = "Active") events).
  { rewrite Forall_forall in Hok |- *. intros c Hc. apply Hok, Hc. }
  unfold phase_post; cbn [available_heroes selected_heroes crime_events patrol_areas
                          successes failures unhandled].
  rewrite (count_status_active "Resolved" events) in Hsu by (discriminate || exact Hact).
  rewrite (count_status_active "Failed" events) in Hfa by (discriminate || exact Hact).
  rewrite (count_status_active "Outside Patrol" events) in Hun by (discriminate || exact Hact).
  rewrite (count_status_active "Unhandled" events) in Hun by (discriminate || exact Hact).
  split; [exact Hp |]. split; [exact Hne |]. split; [| lia].
  apply Forall_forall. intros c Hc.
  apply In_nth with (d := no_crime) in Hc. destruct Hc as (j & Hj & <-).
  rewrite Hlen in Hj.
  assert (Hjo : In j order).
  { eapply Permutation_in; [symmetry; exact Hperm_order |]. apply in_seq. lia. }
  destruct (Hin j Hjo) as (t & -> & Ht). cbn [location status set_status].
  destruct (mem (location (nth j events no_crime)) ar') eqn:Hm.
  - left. split; [apply mem_true, Hm | exact Ht].
  - right. split; [apply mem_false, Hm | exact Ht].
Qed.

Lemma patrol_phases_post (src : nat -> Z) (h a : Z) (s s' : st) (p : patrol_state) :
  patrol_phases src h a s = (inr p, s') -> phase_post p.
Proof.
  intros H. destruct (patrol_phases_valid src h a s s' p H) as [Hh Ha].
  destruct (patrol_phases_spec src h a s Hh Ha) as (p' & s'' & H' & Hpost).
  rewrite H in H'. inversion H'; subst. exact Hpost.
Qed.

Lemma patrol_body_of_phases (src : nat -> Z) (h a : Z) (s s1 : st) (p : patrol_state) :
  patrol_phases src h a s = (inr p, s1) ->
  exists s', patrol_body src h a s
             = (inr ((failures p <? successes p) && (unhandled p <=? 1)), s').
Proof.
  intros H. unfold patrol_body. rewrite (bind_inr _ _ _ _ _ H). cbv beta.
  rewrite !log_bind. step_log_all. rewrite !log_bind.
  eexists. reflexivity.
Qed.

Lemma count_status_total (l : list crime) :
  Forall (fun c => status c = "Resolved" \/ status c = "Failed" \/ status c = "Unhandled"
                   \/ status c = "Outside Patrol") l ->
  count_status "Resolved" l + count_status "Failed" l + count_status "Unhandled" l
  + count_status "Outside Patrol" l = Z.of_nat (List.length l).
Proof.
  unfold count_status. induction 1 as [| c l Hc Hl IH]; [reflexivity |].
  cbn [filter List.length].
  destruct Hc as [E | [E | [E | E]]]; rewrite E; cbn [String.eqb Ascii.eqb Bool.eqb];
    cbn [List.length]; lia.
Qed.

(** ** C5: the hero pool after the dispatch pass *)

(** C5. For every run whose dispatch pass completes, the pool of available
    heroes afterwards is a permutation of the pool before the pass (the
    selected heroes), so it has the same size; in each iteration, removing the
    dispatched hero by name and appending it again permutes a pool with
    unique names. *)
Theorem dispatch_pass_returns_heroes (src : nat -> Z) (h a : Z) (s s' : st) (p : patrol_state)
  (H : patrol_phases src h a s = (inr p, s')) :
  Permutation (available_heroes p) (selected_heroes p)
  /\ List.length (available_heroes p) = List.length (selected_heroes p)
  /\ (forall (avail : list hero) (b : hero), NoDup (map name avail) -> In b avail ->
        Permutation (filter (fun h => negb (String.eqb (name h) (name b))) avail ++ [b]) avail).
Proof.
  destruct (patrol_phases_post src h a s s' p H) as (Hp & _).
  split; [exact Hp |]. split; [exact (Permutation_length Hp) |].
  intros avail b. apply borrow_return_perm.
Qed.

(** ** C6: configuration errors *)

Lemma patrol_begin_run (h a : Z) (s : st) :
  patrol_begin h a s
  = (inr tt, mkSt (rng s)
                  ((log s ++ ["===== GOTHAM NIGHT PATROL BEGINNING ====="])
                   ++ [fmt ["Deploying "; str_of_Z h; " heroes to patrol ";
                            str_of_Z a; " areas"]])).
Proof. reflexivity. Qed.

Lemma validate_error (h a : Z) :
  h < 1 \/ 5 < h \/ a < 1 \/ 8 < a ->
  exists msg, forall s, validate_patrol_config h a s = (inl (ValueError msg), s).
Proof.
  intros Hbad. unfold validate_patrol_config.
  change (Z.of_nat (List.length BAT_FAMILY)) with 5.
  change (Z.of_nat (List.length GOTHAM_AREAS)) with 8.
  destruct (Z.ltb_spec h 1); [eexists; reflexivity |].
  destruct (Z.ltb_spec 5 h); [eexists; reflexivity |].
  destruct (Z.ltb_spec a 1); [eexists; reflexivity |].
  destruct (Z.ltb_spec 8 a); [eexists; reflexivity | lia].
Qed.

(** C6. With a hero count of 0 (or below) or above the roster size 5, or an
    area count of 0 (or below) or above the 8 areas, [validate_patrol_config]
    raises the configuration error ([ValueError]); [run_patrol] catches it
    and returns [False] having drawn no random number and dispatched nobody:
    the log holds exactly the two opening lines and the
    ["CONFIGURATION ERROR: ..."] line. *)
Theorem run_patrol_config_error (src : nat -> Z) (h a : Z) (s : st)
  (Hbad : h < 1 \/ 5 < h \/ a < 1 \/ 8 < a) :
  exists msg,
    validate_patrol_config h a s = (inl (ValueError msg), s)
    /\ run_patrol src h a s
       = (inr false,
          mkSt (rng s)
               (log s ++ ["===== GOTHAM NIGHT PATROL BEGINNING =====";
                          fmt ["Deploying "; str_of_Z h; " heroes to patrol ";
                               str_of_Z a; " areas"];
                          fmt [NL; "CONFIGURATION ERROR: "; msg]])).
Proof.
  destruct (validate_error h a Hbad) as (msg & Hv).
  exists msg. split; [apply Hv |].
  unfold run_patrol. rewrite (bind_inr _ _ _ _ _ (patrol_begin_run h a s)). unfold catch.
  set (s0 := mkSt _ _).
  assert (Hp : patrol_phases src h a s0 = (inl (ValueError msg), s0))
    by (unfold patrol_phases; apply (bind_inl _ _ _ _ _ (Hv s0))).
  assert (Hb : patrol_body src h a s0 = (inl (ValueError msg), s0))
    by (unfold patrol_body; apply (bind_inl _ _ _ _ _ Hp)).
  rewrite Hb. unfold s0. cbn [patrol_handler]. rewrite log_bind. unfold ret. cbn [rng log].
  rewrite <- !app_assoc. reflexivity.
Qed.

(** ** C7: the verdict of a completed run *)

(** C7. When the run gets through the dispatch pass, [run_patrol] returns
    [True] exactly when [successes > failures] and [unhandled <= 1]; the
    unhandled tally counts the crimes marked ["Unhandled"] and those marked
    ["Outside Patrol"], which are exactly the crimes whose location is outside
    the patrol areas. *)
Theorem run_patrol_success_iff (src : nat -> Z) (h a : Z) (s s0 s1 : st) (p : patrol_state)
  (Hbegin : patrol_begin h a s = (inr tt, s0))
  (Hph : patrol_phases src h a s0 = (inr p, s1)) :
  (exists b s', run_patrol src h a s = (inr b, s')
                /\ (b = true <-> successes p > failures p /\ unhandled p <= 1))
  /\ unhandled p = count_status "Unhandled" (crime_events p)
                   + count_status "Outside Patrol" (crime_events p)
  /\ Forall (fun c => ~ In (location c) (patrol_areas p) <-> status c = "Outside Patrol")
            (crime_events p).
Proof.
  destruct (patrol_phases_post src h a s0 s1 p Hph) as (_ & _ & Hst & _ & _ & Hun).
  split; [| split].
  - destruct (patrol_body_of_phases src h a s0 s1 p Hph) as (s' & Hb).
    exists ((failures p <? successes p) && (unhandled p <=? 1)), s'. split.
    + unfold run_patrol. rewrite (bind_inr _ _ _ _ _ Hbegin). unfold catch.
      rewrite Hb. reflexivity.
    + rewrite andb_true_iff, Z.ltb_lt, Z.leb_le. lia.
  - lia.
  - eapply Forall_impl; [| exact Hst]. cbv beta.
    intros c [[Hin [-> | ->]] | [Hout ->]]; split; intros; try congruence; try tauto.
Qed.

(** ** C8: the emergency reallocation *)

(** C8. When some generated crime lies outside the patrol areas,
    [reallocate] draws [random.random()] (its 53-bit numerator [k]) and
    reallocates when [random() < 0.7], i.e. [k < FLOAT_0_7_K], where
    [FLOAT_0_7_K / 2^53] is 0.7 rounded down to a double: it then appends the
    location of the first crime of [prioritize_crimes] over the unpatrolled
    crimes to the patrol areas, and raises [ResourceException] if no hero is
    available; otherwise the areas are unchanged.  [run_patrol] handles a
    [ResourceException] by logging it and returning [False]. *)
Theorem reallocate_spec (src : nat -> Z) (events : list crime) (areas : list string)
  (avail : list hero) (s : st)
  (Hout : filter (fun c => negb (mem (location c) areas)) events <> []) :
  let k := src (rng s) mod 2 ^ 53 in
  let hp := hd no_crime (prioritize_crimes
                           (filter (fun c => negb (mem (location c) areas)) events)) in
  (k < FLOAT_0_7_K -> avail <> [] ->
   exists s', reallocate src events areas avail s = (inr (areas ++ [location hp]), s'))
  /\ (k < FLOAT_0_7_K -> avail = [] ->
      exists s', reallocate src events areas avail s
                 = (inl (ResourceException "No available heroes to respond to the crisis!"), s'))
  /\ (FLOAT_0_7_K <= k -> exists s', reallocate src events areas avail s = (inr areas, s'))
  /\ FLOAT_0_7_K * 10 <= 7 * 2 ^ 53 < (FLOAT_0_7_K + 1) * 10
  /\ (forall m s0, exists s',
        patrol_handler (ResourceException m) s0 = (inr false, s')
        /\ log s' = log s0 ++ [fmt [NL; "RESOURCE ERROR: "; m];
                               "Requesting additional Bat-Family members for backup!"]).
Proof.
  cbv zeta.
  unfold reallocate. cbv zeta.
  destruct (filter (fun c => negb (mem (location c) areas)) events) as [| c0 cs] eqn:Hu;
    [contradiction |].
  destruct (prioritize_crimes (c0 :: cs)) as [| hp t] eqn:Hp.
  { exfalso. pose proof (Permutation_length (sort_by_perm crime_key (c0 :: cs))) as Hl.
    unfold prioritize_crimes in Hp. rewrite Hp in Hl. discriminate. }
  cbn [hd].
  split; [| split; [| split; [| split]]].
  - intros Hk Hne. rewrite log_bind, random_k53_bind. cbn [rng log].
    destruct (Z.ltb_spec (src (rng s) mod 2 ^ 53) FLOAT_0_7_K); [| lia].
    rewrite !log_bind. destruct (List.length avail =? 0)%nat eqn:E.
    + apply Nat.eqb_eq, length_zero_iff_nil in E. contradiction.
    + eexists. reflexivity.
  - intros Hk ->. rewrite log_bind, random_k53_bind. cbn [rng log].
    destruct (Z.ltb_spec (src (rng s) mod 2 ^ 53) FLOAT_0_7_K); [| lia].
    rewrite !log_bind. eexists. reflexivity.
  - intros Hk. rewrite log_bind, random_k53_bind. cbn [rng log].
    destruct (Z.ltb_spec (src (rng s) mod 2 ^ 53) FLOAT_0_7_K); [lia |].
    eexists. reflexivity.
  - unfold FLOAT_0_7_K. lia.
  - intros m s0. eexists. split; [reflexivity |]. cbn [log]. rewrite <- app_assoc. reflexivity.
Qed.

(** ** C9: no hero shortage under a valid configuration *)

(** C9. Under a valid configuration (1 to 5 heroes, 1 to 8 areas), the
    configuring, generating and dispatching phases of [run_patrol] never raise
    (in particular no [ResourceException]); the hero pool is never empty, so
    no crime ends ["Unhandled"]; every crime in the patrol areas ends
    ["Resolved"] or ["Failed"]; and the whole run returns its verdict
    without reaching an [except] clause. *)
Theorem valid_config_no_shortage (src : nat -> Z) (h a : Z) (s : st)
  (Hh : 1 <= h <= 5) (Ha : 1 <= a <= 8) :
  exists p s', patrol_phases src h a s = (inr p, s')
    /\ available_heroes p <> []
    /\ Forall (fun c => status c <> "Unhandled") (crime_events p)
    /\ count_status "Unhandled" (crime_events p) = 0
    /\ Forall (fun c => In (location c) (patrol_areas p) ->
                        status c = "Resolved" \/ status c = "Failed") (crime_events p)
    /\ (forall s0, patrol_begin h a s0 = (inr tt, s) ->
        exists s'', run_patrol src h a s0
                    = (inr ((failures p <? successes p) && (unhandled p <=? 1)), s'')).
Proof.
  destruct (patrol_phases_spec src h a s Hh Ha) as (p & s' & H & Hpost).
  exists p, s'. split; [exact H |].
  destruct Hpost as (Hp & Hne & Hst & _ & _ & _).
  assert (Hnu : Forall (fun c => status c <> "Unhandled") (crime_events p)).
  { eapply Forall_impl; [| exact Hst]. cbv beta.
    intros c [[_ [-> | ->]] | [_ ->]]; discriminate. }
  split; [| split; [exact Hnu | split; [| split]]].
  - intros E. rewrite E in Hp. apply Permutation_nil in Hp. contradiction.
  - unfold count_status. clear -Hnu. induction Hnu as [| c l Hc Hl IH]; [reflexivity |].
    cbn [filter]. destruct (String.eqb_spec (status c) "Unhandled"); [contradiction |].
    exact IH.
  - eapply Forall_impl; [| exact Hst]. cbv beta.
    intros c [[_ Hrf] | [Hout _]] Hin; [exact Hrf | contradiction].
  - intros s0 Hbegin.
    destruct (patrol_body_of_phases src h a s s' p H) as (s'' & Hb).
    exists s''. unfold run_patrol. rewrite (bind_inr _ _ _ _ _ Hbegin). unfold catch.
    rewrite Hb. reflexivity.
Qed.

(** ** C10: the tallies of a completed dispatch pass *)

(** C10. When the dispatch pass completes, every generated crime (all
    created ["Active"]) has left ["Active"] for exactly one of ["Resolved"],
    ["Failed"], ["Unhandled"] or ["Outside Patrol"]; [successes] counts the
    ["Resolved"] ones, [failures] the ["Failed"] ones and [unhandled] the
    ["Unhandled"] and ["Outside Patrol"] ones, so that
    [successes + failures + unhandled] is the number of crimes. *)
Theorem dispatch_pass_tallies (src : nat -> Z) (h a : Z) (s s' : st) (p : patrol_state)
  (H : patrol_phases src h a s = (inr p, s')) :
  Forall (fun c => status c <> "Active"
                   /\ (status c = "Resolved" \/ status c = "Failed"
                       \/ status c = "Unhandled" \/ status c = "Outside Patrol"))
         (crime_events p)
  /\ successes p = count_status "Resolved" (crime_events p)
  /\ failures p = count_status "Failed" (crime_events p)
  /\ unhandled p = count_status "Unhandled" (crime_events p)
                   + count_status "Outside Patrol" (crime_events p)
  /\ successes p + failures p + unhandled p = Z.of_nat (List.length (crime_events p)).
Proof.
  destruct (patrol_phases_post src h a s s' p H) as (_ & _ & Hst & Hsu & Hfa & Hun).
  assert (H4 : Forall (fun c => status c = "Resolved" \/ status c = "Failed"
                                \/ status c = "Unhandled" \/ status c = "Outside Patrol")
                      (crime_events p)).
  { eapply Forall_impl; [| exact Hst]. cbv beta. intros c [[_ [E | E]] | [_ E]]; auto. }
  pose proof (count_status_total _ H4) as Htot.
  split; [| split; [exact Hsu | split; [exact Hfa | split; lia]]].
  eapply Forall_impl; [| exact H4]. cbv beta.
  intros c Hc. split; [| exact Hc].
  destruct Hc as [E | [E | [E | E]]]; rewrite E; discriminate.
Qed.

(** ** Witnesses *)

Lemma demo_begin : patrol_begin 2 3 st0 = (inr tt, demo_s0).
Proof. reflexivity. Qed.

Lemma demo_phases : patrol_phases demo_src 2 3 demo_s0 = (inr demo_phase, demo_s1).
Proof. vm_compute. reflexivity. Qed.

Lemma dispatch_pass_returns_heroes_witness :
  patrol_phases demo_src 2 3 demo_s0 = (inr demo_phase, demo_s1)
  /\ List.length (available_heroes demo_phase) = List.length (selected_heroes demo_phase).
Proof.
  split; [exact demo_phases |].
  exact (proj1 (proj2 (dispatch_pass_returns_heroes demo_src 2 3 demo_s0 demo_s1
                         demo_phase demo_phases))).
Defined.

Lemma run_patrol_config_error_witness :
  (0 < 1 \/ 5 < 0 \/ 3 < 1 \/ 8 < 3)
  /\ exists msg, validate_patrol_config 0 3 st0 = (inl (ValueError msg), st0).
Proof.
  split; [lia |].
  destruct (run_patrol_config_error demo_src 0 3 st0 ltac:(lia)) as (msg & Hv & _).
  exists msg. exact Hv.
Defined.

Lemma run_patrol_success_iff_witness :
  patrol_begin 2 3 st0 = (inr tt, demo_s0)
  /\ patrol_phases demo_src 2 3 demo_s0 = (inr demo_phase, demo_s1)
  /\ exists b s', run_patrol demo_src 2 3 st0 = (inr b, s')
                 /\ (b = true <-> successes demo_phase > failures demo_phase
                                 /\ unhandled demo_phase <= 1).
Proof.
  split; [exact demo_begin | split; [exact demo_phases |]].
  exact (proj1 (run_patrol_success_iff demo_src 2 3 st0 demo_s0 demo_s1 demo_phase
                  demo_begin demo_phases)).
Defined.

Lemma reallocate_spec_witness :
  filter (fun c => negb (mem (location c) ["Diamond District"])) [demo_crime] <> []
  /\ exists s', reallocate demo_src [demo_crime] ["Diamond District"] [] st0
               = (inl (ResourceException "No available heroes to respond to the crisis!"), s').
Proof.
  assert (Hout : filter (fun c => negb (mem (location c) ["Diamond District"])) [demo_crime]
                 <> []) by (vm_compute; discriminate).
  split; [exact Hout |].
  apply (proj1 (proj2 (reallocate_spec demo_src [demo_crime] ["Diamond District"] [] st0 Hout)));
    [vm_compute; reflexivity | reflexivity].
Defined.

Lemma valid_config_no_shortage_witness :
  (1 <= 2 <= 5) /\ (1 <= 3 <= 8)
  /\ exists p s', patrol_phases demo_src 2 3 demo_s0 = (inr p, s')
                 /\ count_status "Unhandled" (crime_events p) = 0.
Proof.
  split; [lia | split; [lia |]].
  destruct (valid_config_no_shortage demo_src 2 3 demo_s0 ltac:(lia) ltac:(lia))
    as (p & s' & Hp & _ & _ & Hc & _).
  exists p, s'. split; [exact Hp | exact Hc].
Defined.

Lemma dispatch_pass_tallies_witness :
  patrol_phases demo_src 2 3 demo_s0 = (inr demo_phase, demo_s1)
  /\ successes demo_phase + failures demo_phase + unhandled demo_phase
     = Z.of_nat (List.length (crime_events demo_phase)).
Proof.
  split; [exact demo_phases |].
  exact (proj2 (proj2 (proj2 (proj2 (dispatch_pass_tallies demo_src 2 3 demo_s0 demo_s1
                                        demo_phase demo_phases))))).
Defined.

(** * Further properties of the simulator *)

(** ** [validate_patrol_config] *)

(** [validate_patrol_config] never draws nor logs; it returns [True] exactly
    on [1 <= num_heroes <= 5] and [1 <= num_areas <= 8]; otherwise it raises
    [ValueError] with the message of the first failed check, the hero count
    being checked before the area count. *)
Theorem validate_patrol_config_errors (h a : Z) (s : st) :
  (validate_patrol_config h a s = (inr true, s) <-> 1 <= h <= 5 /\ 1 <= a <= 8)
  /\ (h < 1 ->
      validate_patrol_config h a s = (inl (ValueError "At least one hero must be deployed."), s))
  /\ (5 < h ->
      validate_patrol_config h a s = (inl (ValueError "There are only 5 heroes available."), s))
  /\ (1 <= h <= 5 -> a < 1 ->
      validate_patrol_config h a s
      = (inl (ValueError "At least one area must be patrolled."), s))
  /\ (1 <= h <= 5 -> 8 < a ->
      validate_patrol_config h a s = (inl (ValueError "There are only 8 areas to patrol."), s)).
Proof.
  unfold validate_patrol_config.
  change (Z.of_nat (List.length BAT_FAMILY)) with 5.
  change (Z.of_nat (List.length GOTHAM_AREAS)) with 8.
  destruct (Z.ltb_spec h 1); [| destruct (Z.ltb_spec 5 h);
    [| destruct (Z.ltb_spec a 1); [| destruct (Z.ltb_spec 8 a)]]];
  repeat match goal with |- _ /\ _ => split end;
  try (intros; (reflexivity || lia)); split; intros; (discriminate || lia || reflexivity).
Qed.

(** ** [dispatch_hero]: the success chance *)

(** The success chance of [dispatch_hero] is monotone: a hero with the same
    name and specialty but at least the effectiveness, sent to a crime of the
    same type and at most the severity, has at least the chance. *)
Theorem success_chance_monotone (h h' : hero) (c c' : crime)
  (Hname : name h = name h') (Hspec : specialty h = specialty h')
  (Heff : effectiveness h <= effectiveness h')
  (Htype : ctype c = ctype c') (Hsev : severity c' <= severity c) :
  success_chance h c <= success_chance h' c'.
Proof.
  unfold success_chance, specialty_matches. cbv zeta.
  rewrite <- Hname, <- Hspec, <- Htype.
  destruct (mem (specialty h) (dict_get (ctype c) SPECIALTY_MATCHING [])),
    (String.eqb (name h) "Batman"); lia.
Qed.

(** ** [match_hero_to_crime] against the odds of [dispatch_hero] *)

Lemma score_odds_roster (h b : hero) (c : crime) :
  In h BAT_FAMILY -> In b BAT_FAMILY -> ctype c <> "Drug Deal" ->
  hero_score h c <= hero_score b c -> success_chance h c <= success_chance b c.
Proof.
  intros Hh Hb Ht. unfold hero_score, success_chance, specialty_matches. cbv zeta.
  unfold SPECIALTY_MATCHING. cbn [dict_get].
  repeat match goal with
         | |- context [String.eqb (ctype c) ?k] => destruct (String.eqb_spec (ctype c) k)
         end;
  try contradiction;
  cbn in Hh, Hb;
  repeat (destruct Hh as [<- | Hh]); try contradiction;
  repeat (destruct Hb as [<- | Hb]); try contradiction;
  cbn -[Z.add Z.sub Z.mul Z.min Z.max]; lia.
Qed.

(** For a pool of roster heroes and a crime of any type but ["Drug Deal"],
    the hero [match_hero_to_crime] picks (by score) has the highest success
    chance in the pool. *)
Theorem match_hero_to_crime_best_odds (pool : list hero) (c : crime) (lf : bool) (s : st)
  (Hpool : incl pool BAT_FAMILY) (Hne : pool <> []) (Htype : ctype c <> "Drug Deal") :
  exists b s', match_hero_to_crime pool c lf s = (inr (Some b), s') /\ In b pool
    /\ forall h, In h pool -> success_chance h c <= success_chance b c.
Proof.
  assert (Heff : Forall (fun h => 0 <= effectiveness h) pool).
  { pose proof BAT_FAMILY_eff as Hb. rewrite Forall_forall in Hb |- *. auto. }
  destruct (best_hero_loop pool c None (-1)) as [r rs] eqn:Hl.
  destruct (best_hero_loop_spec c pool None (-1) r rs Hl)
    as [(-> & -> & Hall) | (pre & b & post & Heq & -> & -> & Hlt & Hpre & Hpost)].
  - exfalso. destruct pool as [| h0 t]; [easy |].
    inversion Hall; inversion Heff; subst.
    pose proof (hero_score_nonneg h0 c ltac:(assumption)). lia.
  - assert (Hb : In b pool) by (rewrite Heq; apply in_or_app; simpl; auto).
    exists b. unfold match_hero_to_crime. destruct pool as [| h0 t]; [easy |].
    rewrite Hl. destruct lf; eexists; (split; [reflexivity | split; [exact Hb |]]).
    all: intros h Hh; apply score_odds_roster; auto.
    all: rewrite Heq in Hh; apply in_app_or in Hh; destruct Hh as [Hh | [<- | Hh]].
    all: try (rewrite Forall_forall in Hpre; specialize (Hpre h Hh); lia).
    all: try lia.
    all: rewrite Forall_forall in Hpost; auto.
Qed.

(** For a ["Drug Deal"] of severity 4 to 21, from the pool [Nightwing;
    Batman] [match_hero_to_crime] picks Nightwing (score 12, first seen),
    whose success chance is 5 points below Batman's (score 12 too). *)
Theorem match_hero_to_crime_drug_deal (loc stat : string) (sev : Z) (lf : bool) (s : st)
  (Hsev : 4 <= sev <= 21) :
  let nightwing := mkHero "Nightwing" "Stealth" 9 in
  let batman := mkHero "Batman" "Combat" 10 in
  let c := mkCrime "Drug Deal" loc sev stat in
  fst (match_hero_to_crime [nightwing; batman] c lf s) = inr (Some nightwing)
  /\ hero_score nightwing c = hero_score batman c
  /\ success_chance nightwing c + 5 = success_chance batman c.
Proof.
  cbv zeta. split; [| split].
  - destruct lf; reflexivity.
  - reflexivity.
  - unfold success_chance. cbn -[Z.add Z.sub Z.mul Z.min Z.max]. lia.
Qed.

(** ** [prioritize_crimes] *)

Lemma sort_by_sorted_id {A : Type} (key : A -> Z * Z) (l : list A) :
  StronglySorted (fun x y => key_le (key x) (key y) = true) l -> sort_by key l = l.
Proof.
  induction 1 as [| x l Hl IH Hx]; [reflexivity |].
  cbn [sort_by]. rewrite IH. destruct l as [| y l]; [reflexivity |].
  cbn [insert_by]. inversion Hx as [| ? ? Hxy _]; subst. rewrite Hxy. reflexivity.
Qed.

(** [prioritize_crimes] is idempotent: sorting an already prioritized list
    returns it unchanged. *)
Theorem prioritize_crimes_idempotent (crimes : list crime) :
  prioritize_crimes (prioritize_crimes crimes) = prioritize_crimes crimes.
Proof.
  unfold prioritize_crimes. apply sort_by_sorted_id.
  apply Sorted_StronglySorted; [intros x y z; apply key_ord_trans |].
  apply sort_by_sorted.
Qed.

(** ** The emergency reallocation *)

Lemma reallocate_areas (src : nat -> Z) (events : list crime) (areas : list string)
  (avail : list hero) (s : st) (areas' : list string) (s' : st) :
  reallocate src events areas avail s = (inr areas', s') ->
  areas' = areas
  \/ exists c, In c events /\ ~ In (location c) areas /\ areas' = areas ++ [location c].
Proof.
  unfold reallocate. cbv zeta.
  destruct (filter (fun c => negb (mem (location c) areas)) events) as [| c0 cs] eqn:Hu.
  { intros H. inversion H. left. reflexivity. }
  rewrite log_bind, random_k53_bind.
  destruct (_ <? FLOAT_0_7_K); [| intros H; inversion H; left; reflexivity].
  destruct (prioritize_crimes (c0 :: cs)) as [| hp t] eqn:Hp; [discriminate |].
  rewrite !log_bind. destruct (List.length avail =? 0)%nat; [discriminate |].
  intros H. inversion H; subst. right. exists hp.
  assert (Hin : In hp (filter (fun c => negb (mem (location c) areas)) events)).
  { rewrite Hu. eapply Permutation_in; [apply (sort_by_perm crime_key) |].
    unfold prioritize_crimes in Hp. rewrite Hp. left. reflexivity. }
  apply filter_In in Hin. destruct Hin as [Hin Hm].
  apply negb_true_iff, mem_false in Hm. auto.
Qed.

(** [reallocate] (lines 278-295 of [run_patrol]): when every crime is in the
    patrol areas it neither draws, logs nor changes the areas; when it
    returns, the areas are unchanged or extended by the location of one
    crime that was outside them; the only exception it raises is the
    [ResourceException] on an empty hero pool. *)
Theorem reallocate_effects (src : nat -> Z) (events : list crime) (areas : list string)
  (avail : list hero) (s : st) :
  (filter (fun c => negb (mem (location c) areas)) events = [] ->
   reallocate src events areas avail s = (inr areas, s))
  /\ (forall areas' s', reallocate src events areas avail s = (inr areas', s') ->
      areas' = areas
      \/ exists c, In c events /\ ~ In (location c) areas /\ areas' = areas ++ [location c])
  /\ (forall e s', reallocate src events areas avail s = (inl e, s') ->
      avail = [] /\ e = ResourceException "No available heroes to respond to the crisis!").
Proof.
  split; [| split].
  - intros Hu. unfold reallocate. cbv zeta. rewrite Hu. reflexivity.
  - intros areas' s'. apply reallocate_areas.
  - intros e s'. unfold reallocate. cbv zeta.
    destruct (filter (fun c => negb (mem (location c) areas)) events) as [| c0 cs] eqn:Hu;
      [discriminate |].
    rewrite log_bind, random_k53_bind.
    destruct (_ <? FLOAT_0_7_K); [| discriminate].
    destruct (prioritize_crimes (c0 :: cs)) as [| hp t] eqn:Hp.
    + exfalso. pose proof (Permutation_length (sort_by_perm crime_key (c0 :: cs))) as Hl.
      unfold prioritize_crimes in Hp. rewrite Hp in Hl. discriminate.
    + rewrite !log_bind. destruct (List.length avail =? 0)%nat eqn:E; [| discriminate].
      intros H. inversion H. split; [| reflexivity].
      apply Nat.eqb_eq, length_zero_iff_nil in E. exact E.
Qed.

(** ** A completed run: heroes, areas and crimes *)

(** The fields of a crime dict other than its status. *)
Definition crime_fields (c : crime) : string * string * Z := (ctype c, location c, severity c).

Lemma store_set_status_fields (i : nat) (t : string) (store : list crime) :
  map crime_fields (store_set_status i t store) = map crime_fields store.
Proof.
  unfold store_set_status. revert i.
  induction store as [| y l IH]; intros [| i]; simpl; try reflexivity.
  f_equal. apply IH.
Qed.

Lemma dispatch_loop_fields (src : nat -> Z) (areas : list string) (order : list nat) :
  forall avail store su fa un s av store' t s',
  dispatch_loop src areas order avail store su fa un s = (inr (av, store', t), s') ->
  map crime_fields store' = map crime_fields store.
Proof.
  induction order as [| i rest IH]; intros avail store su fa un s av store' t s' H;
    cbn [dispatch_loop] in H.
  - inversion H; subst. reflexivity.
  - destruct (mem (location (nth i store no_crime)) areas).
    + apply bind_inv in H. destruct H as (best & s1 & _ & H).
      destruct best as [b |].
      * apply bind_inv in H. destruct H as (res & s2 & _ & H).
        destruct (success res); cbv beta iota in H; rewrite log_bind in H;
          apply IH in H; rewrite H; apply store_set_status_fields.
      * rewrite log_bind in H. apply IH in H. rewrite H. apply store_set_status_fields.
    + rewrite log_bind in H. apply IH in H. rewrite H. apply store_set_status_fields.
Qed.

Lemma generate_none_spec (src : nat -> Z) (s : st) (ev : list crime) (s' : st) :
  generate_crime_events src None s = (inr ev, s') ->
  (1 <= List.length ev <= 3)%nat /\ NoDup (map location ev) /\ Forall generated_ok ev.
Proof.
  intros H. unfold generate_crime_events in H.
  assert (Hn : randint src 1 3 s = (inr (1 + src (rng s) mod 3), mkSt (S (rng s)) (log s)))
    by reflexivity.
  rewrite (bind_inr _ _ _ _ _ Hn) in H.
  destruct (gen_events_spec src (Z.to_nat (1 + src (rng s) mod 3)) [] []
              (mkSt (S (rng s)) (log s))) as (evs & s1 & Hrun & Hnd & Hok & Hlen).
  { simpl. tauto. }
  { constructor. }
  { constructor. }
  rewrite Hrun in H. inversion H; subst.
  pose proof (Z.mod_pos_bound (src (rng s)) 3 ltac:(lia)).
  split; [| split; assumption]. rewrite Hlen. cbn [List.length Nat.add]. lia.
Qed.

Ltac inv_bind H x s E :=
  apply bind_inv in H; destruct H as (x & s & E & H); cbv beta zeta in H.

Lemma patrol_phases_inv (src : nat -> Z) (h a : Z) (s s' : st) (p : patrol_state) :
  patrol_phases src h a s = (inr p, s') ->
  1 <= h <= 5 /\ 1 <= a <= 8
  /\ (exists rest, Permutation (selected_heroes p ++ rest) BAT_FAMILY
                   /\ Z.of_nat (List.length (selected_heroes p)) = h)
  /\ (exists ar arr ev s1 s2 s3 s4,
        Permutation (ar ++ arr) GOTHAM_AREAS /\ Z.of_nat (List.length ar) = a
        /\ generate_crime_events src None s1 = (inr ev, s2)
        /\ reallocate src ev ar (selected_heroes p) s3 = (inr (patrol_areas p), s4)
        /\ map crime_fields (crime_events p) = map crime_fields ev).
Proof.
  intros H. destruct (patrol_phases_valid src h a s s' p H) as [Hh Ha].
  split; [exact Hh | split; [exact Ha |]].
  unfold patrol_phases in H.
  inv_bind H b0 s0 E0. inv_bind H sel s1 Esel. inv_bind H ar s2 Ear.
  inv_bind H u1 s3 E3. inv_bind H u2 s4 E4. inv_bind H u3 s5 E5. inv_bind H u4 s6 E6.
  inv_bind H ev s7 Eev. inv_bind H u5 s8 E8. inv_bind H u6 s9 E9.
  inv_bind H ar' s10 Ear'. inv_bind H u7 s11 E11. inv_bind H res s12 E12.
  destruct res as [[av ev'] [[su fa] un]].
  inversion H; subst; clear H. cbn [selected_heroes patrol_areas crime_events].
  destruct (random_sample_spec src BAT_FAMILY h s0 ltac:(simpl; lia))
    as (res & rest & s2' & Es & Hp1 & Hl1).
  rewrite Es in Esel. injection Esel as <- <-.
  destruct (random_sample_spec src GOTHAM_AREAS a s2' ltac:(simpl; lia))
    as (res' & arr & s3' & Ea & Hp2 & Hl2).
  rewrite Ea in Ear. injection Ear as <- <-.
  split; [exists rest; split; assumption |].
  exists res', arr, ev, s6, s7, s9, s10.
  repeat match goal with |- _ /\ _ => split end; try assumption.
  eapply dispatch_loop_fields. eassumption.
Qed.

Lemma BAT_FAMILY_NoDup : NoDup BAT_FAMILY.
Proof. apply (NoDup_map_inv name). exact BAT_FAMILY_names. Qed.

(** In a run that completes its dispatch pass, the patrol team is made of
    [num_heroes] distinct members of the Bat-Family roster. *)
Theorem patrol_team_from_roster (src : nat -> Z) (h a : Z) (s s' : st) (p : patrol_state)
  (H : patrol_phases src h a s = (inr p, s')) :
  NoDup (selected_heroes p) /\ incl (selected_heroes p) BAT_FAMILY
  /\ Z.of_nat (List.length (selected_heroes p)) = h.
Proof.
  destruct (patrol_phases_inv src h a s s' p H) as (_ & _ & (rest & Hp & Hl) & _).
  split; [| split; [| exact Hl]].
  - apply (NoDup_app_remove_r _ rest). eapply Permutation_NoDup;
      [symmetry; exact Hp | exact BAT_FAMILY_NoDup].
  - intros x Hx. eapply Permutation_in; [exact Hp |]. apply in_or_app. auto.
Qed.

(** In a run that completes its dispatch pass, the patrol areas are distinct
    Gotham areas: the [num_areas] sampled ones, plus at most one area added
    by the reallocation. *)
Theorem patrol_areas_distinct (src : nat -> Z) (h a : Z) (s s' : st) (p : patrol_state)
  (H : patrol_phases src h a s = (inr p, s')) :
  NoDup (patrol_areas p) /\ incl (patrol_areas p) GOTHAM_AREAS
  /\ (Z.of_nat (List.length (patrol_areas p)) = a
      \/ Z.of_nat (List.length (patrol_areas p)) = a + 1).
Proof.
  destruct (patrol_phases_inv src h a s s' p H)
    as (_ & _ & _ & (ar & arr & ev & s1 & s2 & s3 & s4 & Hp & Hl & Hg & Hr & _)).
  destruct (generate_none_spec src s1 ev s2 Hg) as (_ & _ & Hok).
  assert (Hnd : NoDup ar).
  { apply (NoDup_app_remove_r _ arr). eapply Permutation_NoDup;
      [symmetry; exact Hp | exact GOTHAM_AREAS_NoDup]. }
  assert (Hincl : incl ar GOTHAM_AREAS).
  { intros x Hx. eapply Permutation_in; [exact Hp |]. apply in_or_app. auto. }
  destruct (reallocate_areas src ev ar _ s3 _ s4 Hr) as [-> | (c & Hc & Hout & ->)].
  - auto.
  - rewrite Forall_forall in Hok. destruct (Hok c Hc) as (_ & _ & Hloc & _).
    split; [| split].
    + apply Permutation_NoDup with (l := location c :: ar);
        [apply Permutation_cons_append | constructor; assumption].
    + intros x Hx. apply in_app_or in Hx. destruct Hx as [Hx | [<- | []]]; auto.
    + right. rewrite length_app. simpl. lia.
Qed.

(** In a run that completes its dispatch pass, one to three crimes were
    reported, at distinct locations; the dispatch pass changed only their
    statuses, so each still has a catalog type, a Gotham location and its
    generated severity range. *)
Theorem patrol_crimes_reported (src : nat -> Z) (h a : Z) (s s' : st) (p : patrol_state)
  (H : patrol_phases src h a s = (inr p, s')) :
  (1 <= List.length (crime_events p) <= 3)%nat
  /\ NoDup (map location (crime_events p))
  /\ Forall (fun c => In (ctype c) CRIME_TYPES /\ In (location c) GOTHAM_AREAS
                      /\ (if String.eqb (ctype c) "Super-villain Activity"
                          then 7 <= severity c <= 10 else 3 <= severity c <= 8))
            (crime_events p).
Proof.
  destruct (patrol_phases_inv src h a s s' p H)
    as (_ & _ & _ & (ar & arr & ev & s1 & s2 & s3 & s4 & _ & _ & Hg & _ & Hf)).
  destruct (generate_none_spec src s1 ev s2 Hg) as (Hl & Hnd & Hok).
  set (Q := fun x : string * string * Z =>
              let '(t, loc, sev) := x in
              In t CRIME_TYPES /\ In loc GOTHAM_AREAS
              /\ (if String.eqb t "Super-villain Activity"
                  then 7 <= sev <= 10 else 3 <= sev <= 8)).
  assert (Hq : Forall Q (map crime_fields ev)).
  { apply Forall_map. eapply Forall_impl; [| exact Hok].
    intros c (_ & Ht & Hloc & Hsev). exact (conj Ht (conj Hloc Hsev)). }
  assert (Hloc : forall l, map location l = map (fun x => snd (fst x)) (map crime_fields l))
    by (intros l; rewrite map_map; reflexivity).
  split; [| split].
  - rewrite <- (length_map crime_fields), Hf, length_map. exact Hl.
  - rewrite Hloc, Hf, <- Hloc. exact Hnd.
  - rewrite <- Hf in Hq. apply (Forall_map crime_fields Q) in Hq. exact Hq.
Qed.

(** ** [CrisisException] is never raised *)

Definition not_crisis (e : exn) : Prop :=
  match e with
  | CrisisException _ _ _ => False
  | _ => True
  end.

(** A computation that raises no [CrisisException]. *)
Definition no_crisis {A : Type} (m : M A) : Prop :=
  forall s e s', m s = (inl e, s') -> not_crisis e.

Lemma nc_ret {A : Type} (a : A) : no_crisis (ret a).
Proof. intros s e s' H. discriminate H. Qed.

Lemma nc_raise {A : Type} (e : exn) : not_crisis e -> no_crisis (@raise A e).
Proof. intros He s e' s' H. inversion H; subst. exact He. Qed.

Lemma nc_bind {A B : Type} (m : M A) (k : A -> M B) :
  no_crisis m -> (forall a, no_crisis (k a)) -> no_crisis (bind m k).
Proof.
  intros Hm Hk s e s'. unfold bind. destruct (m s) as [[e0 | a] s0] eqn:E; intros H.
  - inversion H; subst. exact (Hm _ _ _ E).
  - exact (Hk a _ _ _ H).
Qed.

Lemma nc_log (m : string) : no_crisis (log_patrol_event m).
Proof. intros s e s' H. discriminate H. Qed.

Lemma nc_log_all (ms : list string) : no_crisis (log_all ms).
Proof.
  induction ms as [| m ms IH]; cbn [log_all]; [apply nc_ret |].
  apply nc_bind; [apply nc_log | intros; exact IH].
Qed.

Lemma nc_draw (src : nat -> Z) : no_crisis (draw src).
Proof. intros s e s' H. discriminate H. Qed.

Lemma nc_randbelow (src : nat -> Z) (n : Z) : no_crisis (randbelow src n).
Proof. apply nc_bind; [apply nc_draw | intros; apply nc_ret]. Qed.

Lemma nc_randint (src : nat -> Z) (a b : Z) : no_crisis (randint src a b).
Proof. apply nc_bind; [apply nc_randbelow | intros; apply nc_ret]. Qed.

Lemma nc_random_k53 (src : nat -> Z) : no_crisis (random_k53 src).
Proof. apply nc_bind; [apply nc_draw | intros; apply nc_ret]. Qed.

Lemma nc_choice {A : Type} (src : nat -> Z) (l : list A) : no_crisis (choice src l).
Proof.
  destruct l; [apply nc_raise; exact I |].
  apply nc_bind; [apply nc_randbelow | intros; apply nc_ret].
Qed.

Lemma nc_sample_picks {A : Type} (src : nat -> Z) (k : nat) :
  forall (pool : list A), no_crisis (sample_picks src k pool).
Proof.
  induction k as [| k IH]; intros [| d pool]; cbn [sample_picks];
    try apply nc_ret; try (apply nc_raise; exact I).
  apply nc_bind; [apply nc_randbelow | intros j; cbv beta zeta].
  apply nc_bind; [apply IH | intros; apply nc_ret].
Qed.

Lemma nc_random_sample {A : Type} (src : nat -> Z) (population : list A) (k : Z) :
  no_crisis (random_sample src population k).
Proof.
  unfold random_sample. destruct (_ || _); [apply nc_raise; exact I | apply nc_sample_picks].
Qed.

Ltac nc_step :=
  match goal with
  | |- no_crisis (bind _ _) => apply nc_bind; [| intro; cbv beta zeta]
  | |- no_crisis (ret _) => apply nc_ret
  | |- no_crisis (raise _) => apply nc_raise; exact I
  | |- no_crisis (log_patrol_event _) => apply nc_log
  | |- no_crisis (log_all _) => apply nc_log_all
  | |- no_crisis (randint _ _ _) => apply nc_randint
  | |- no_crisis (random_k53 _) => apply nc_random_k53
  | |- no_crisis (choice _ _) => apply nc_choice
  | |- no_crisis (random_sample _ _ _) => apply nc_random_sample
  | |- no_crisis (if ?b then _ else _) => destruct b
  end.

Lemma nc_validate (h a : Z) : no_crisis (validate_patrol_config h a).
Proof. unfold validate_patrol_config. repeat nc_step. Qed.

Lemma nc_gen_events (src : nat -> Z) (k : nat) :
  forall used events, no_crisis (gen_events src k used events).
Proof.
  induction k as [| k IH]; intros used events; cbn [gen_events]; [apply nc_ret |].
  repeat nc_step.
  destruct (filter (fun a => negb (mem a used)) GOTHAM_AREAS); repeat nc_step; apply IH.
Qed.

Lemma nc_generate (src : nat -> Z) (n : option Z) : no_crisis (generate_crime_events src n).
Proof.
  unfold generate_crime_events. apply nc_bind.
  - destruct n; repeat nc_step.
  - intros. apply nc_gen_events.
Qed.

Lemma nc_reallocate (src : nat -> Z) (events : list crime) (areas : list string)
  (avail : list hero) : no_crisis (reallocate src events areas avail).
Proof.
  unfold reallocate. cbv zeta.
  destruct (filter (fun c => negb (mem (location c) areas)) events); repeat nc_step.
  destruct (prioritize_crimes _); repeat nc_step.
Qed.

Lemma nc_match (avail : list hero) (c : crime) (lf : bool) :
  no_crisis (match_hero_to_crime avail c lf).
Proof.
  unfold match_hero_to_crime. destruct avail; [repeat nc_step |].
  destruct (best_hero_loop _ c None (-1)) as [[b |] bs]; repeat nc_step.
Qed.

Lemma nc_dispatch_hero (src : nat -> Z) (h : hero) (c : crime) (lf : bool) :
  no_crisis (dispatch_hero src h c lf).
Proof. unfold dispatch_hero. cbv zeta. repeat nc_step. Qed.

Lemma nc_dispatch_loop (src : nat -> Z) (areas : list string) (order : list nat) :
  forall avail store su fa un, no_crisis (dispatch_loop src areas order avail store su fa un).
Proof.
  induction order as [| i rest IH]; intros; cbn [dispatch_loop]; [apply nc_ret |].
  destruct (mem _ areas); repeat nc_step; try apply IH.
  - apply nc_match.
  - match goal with x : option hero |- _ => destruct x as [b |] end; repeat nc_step; try apply IH.
    + apply nc_dispatch_hero.
    + match goal with r : dispatch_result |- _ => destruct (success r) end;
        repeat nc_step; apply IH.
Qed.

Lemma nc_patrol_phases (src : nat -> Z) (h a : Z) : no_crisis (patrol_phases src h a).
Proof.
  unfold patrol_phases. repeat nc_step.
  - apply nc_validate.
  - apply nc_generate.
  - apply nc_reallocate.
  - apply nc_dispatch_loop.
  - match goal with r : (list hero * list crime * (Z * Z * Z))%type |- _ =>
      destruct r as [[av ev] [[su fa] un]] end. apply nc_ret.
Qed.

(** The [try] block of [run_patrol] never raises [CrisisException]: the
    simulator defines it, but no function it calls raises it, so the
    [except CrisisException] clause ("CRISIS ALERT") is never run. *)
Theorem patrol_body_never_crisis (src : nat -> Z) (h a : Z) (s s' : st)
  (loc : string) (sev : Z) (msg : string) :
  patrol_body src h a s <> (inl (CrisisException loc sev msg), s').
Proof.
  intros H. assert (Hnc : no_crisis (patrol_body src h a)).
  { unfold patrol_body. apply nc_bind; [apply nc_patrol_phases | intros; repeat nc_step]. }
  exact (Hnc _ _ _ H).
Qed.

(** ** The verdict in the log *)

Lemma app_last2 {A : Type} (l1 l2 : list A) (a b c d : A) :
  l1 ++ [a; b] = l2 ++ [c; d] -> l1 = l2 /\ a = c /\ b = d.
Proof.
  intros H. change (l1 ++ [a] ++ [b] = l2 ++ [c] ++ [d]) in H.
  rewrite (app_assoc l1 [a] [b]), (app_assoc l2 [c] [d]) in H.
  apply app_inj_tail in H. destruct H as [H ->].
  apply app_inj_tail in H. destruct H as [-> ->]. auto.
Qed.

Definition COMPLETE_LINE : string := "===== GOTHAM NIGHT PATROL COMPLETE =====".

Lemma patrol_body_log (src : nat -> Z) (h a : Z) (s : st) (b : bool) (s' : st) :
  patrol_body src h a s = (inr b, s') ->
  exists pre, log s' = pre ++ [fmt [NL; "Patrol deemed ";
                                    if b then "SUCCESSFUL" else "PROBLEMATIC"; "."];
                               COMPLETE_LINE].
Proof.
  intros H. unfold patrol_body in H.
  inv_bind H p s1 E1. rewrite !log_bind in H. inv_bind H u s2 E2.
  rewrite !log_bind in H. inversion H; subst. cbn [log].
  eexists. rewrite <- app_assoc. reflexivity.
Qed.

Lemma handler_log (e : exn) (s : st) :
  exists s', patrol_handler e s = (inr false, s')
    /\ exists pre x, log s' = pre ++ [x] /\ x <> COMPLETE_LINE.
Proof.
  destruct e; cbn [patrol_handler]; rewrite ?log_bind; eexists; (split; [reflexivity |]);
    cbn [log]; do 2 eexists; (split; [reflexivity |]); unfold COMPLETE_LINE.
  - intros E. cbn [fmt String.concat String.append NL] in E.
    injection E as E _. vm_compute in E. discriminate E.
  - discriminate.
  - intros E. cbn [fmt String.concat String.append] in E. discriminate E.
  - intros E. cbn [fmt String.concat String.append NL] in E.
    injection E as E _. vm_compute in E. discriminate E.
Qed.

(** [run_patrol] always returns a boolean (every exception of its [try]
    block is caught), and it returns [True] exactly when its log ends with
    ["Patrol deemed SUCCESSFUL."] and the closing banner: the logged verdict
    is the returned one. *)
Theorem run_patrol_verdict_logged (src : nat -> Z) (h a : Z) (s : st) :
  exists b s', run_patrol src h a s = (inr b, s')
    /\ (b = true <-> exists pre, log s' = pre ++ [fmt [NL; "Patrol deemed "; "SUCCESSFUL"; "."];
                                                COMPLETE_LINE]).
Proof.
  unfold run_patrol. rewrite (bind_inr _ _ _ _ _ (patrol_begin_run h a s)). unfold catch.
  set (s0 := mkSt _ _).
  destruct (patrol_body src h a s0) as [[e | b] s1] eqn:Hb.
  - destruct (handler_log e s1) as (s' & Hh & pre & x & Hl & Hx).
    exists false, s'. split; [exact Hh |]. split; [discriminate |].
    intros (pre' & Hpre). rewrite Hl in Hpre.
    change (pre ++ [x] = pre' ++ [fmt [NL; "Patrol deemed "; "SUCCESSFUL"; "."]]
                         ++ [COMPLETE_LINE]) in Hpre.
    rewrite (app_assoc pre' [_] [_]) in Hpre. apply app_inj_tail in Hpre.
    destruct Hpre as [_ E]. contradiction.
  - exists b, s1. split; [reflexivity |].
    destruct (patrol_body_log src h a s0 b s1 Hb) as (pre & Hl).
    split.
    + intros ->. exists pre. exact Hl.
    + intros (pre' & Hpre). rewrite Hl in Hpre. apply app_last2 in Hpre.
      destruct Hpre as (_ & E & _). destruct b; [reflexivity |].
      vm_compute in E. discriminate E.
Qed.

(** ** Random draws of the dispatch pass *)

Lemma match_hero_rng (avail : list hero) (c : crime) (lf : bool) (s : st) (o : option hero)
  (s' : st) :
  match_hero_to_crime avail c lf s = (inr o, s') -> rng s' = rng s.
Proof.
  unfold match_hero_to_crime. destruct avail as [| h0 t].
  - destruct lf; intros H; inversion H; reflexivity.
  - destruct (best_hero_loop _ c None (-1)) as [[b |] bs]; [destruct lf |];
      intros H; inversion H; reflexivity.
Qed.

Lemma dispatch_hero_rng (src : nat -> Z) (h : hero) (c : crime) (lf : bool) (s : st)
  (r : dispatch_result) (s' : st) :
  dispatch_hero src h c lf s = (inr r, s') -> rng s' = S (rng s).
Proof.
  unfold dispatch_hero.
  destruct (specialty_matches h c && lf), lf; cbv [bind ret log_patrol_event randint randbelow draw];
    intros H; inversion H; reflexivity.
Qed.

Lemma location_store_set_status (i j : nat) (t : string) (store : list crime) :
  location (nth j (store_set_status i t store) no_crime) = location (nth j store no_crime).
Proof.
  pose proof (store_set_status_fields i t store) as Hf.
  assert (Hn : forall l, crime_fields (nth j l no_crime) = nth j (map crime_fields l)
                                                            (crime_fields no_crime))
    by (intros l; symmetry; apply map_nth).
  pose proof (f_equal (fun l => nth j l (crime_fields no_crime)) Hf) as Hj. cbv beta in Hj.
  rewrite <- !Hn in Hj. unfold crime_fields in Hj. injection Hj as _ E _. exact E.
Qed.

(** The dispatch loop, started on a non-empty pool of heroes of non-negative
    effectiveness, draws exactly one random number (the roll of
    [dispatch_hero]) per crime in the patrol areas, and none for the crimes
    outside them. *)
Theorem dispatch_loop_one_roll_per_patrolled_crime (src : nat -> Z) (areas : list string)
  (order : list nat) (avail : list hero) (store : list crime) (su fa un : Z) (s : st)
  (r : list hero * list crime * (Z * Z * Z)) (s' : st)
  (Hne : avail <> []) (Heff : Forall (fun h => 0 <= effectiveness h) avail)
  (H : dispatch_loop src areas order avail store su fa un s = (inr r, s')) :
  rng s' = (rng s + List.length (filter (fun i => mem (location (nth i store no_crime)) areas)
                                       order))%nat.
Proof.
  revert avail store su fa un s Hne Heff H.
  induction order as [| i rest IH]; intros avail store su fa un s Hne Heff H;
    cbn [dispatch_loop] in H.
  - inversion H; subst. simpl. lia.
  - cbn [filter]. destruct (mem (location (nth i store no_crime)) areas) eqn:Hm.
    + destruct (match_hero_some avail (nth i store no_crime) true s Hne Heff)
        as (b & s1 & Em & Hb).
      rewrite (bind_inr _ _ _ _ _ Em) in H. cbv beta iota in H.
      inv_bind H res s2 Ed.
      pose proof (match_hero_rng _ _ _ _ _ _ Em) as R1.
      pose proof (dispatch_hero_rng _ _ _ _ _ _ _ Ed) as R2.
      set (avail1 := filter (fun h => negb (String.eqb (name h) (name b))) avail) in H.
      assert (Hne' : avail1 ++ [b] <> []) by (destruct avail1; discriminate).
      assert (Heff' : Forall (fun h => 0 <= effectiveness h) (avail1 ++ [b])).
      { rewrite Forall_forall in Heff |- *. intros x Hx. apply in_app_or in Hx.
        destruct Hx as [Hx | [<- | []]]; [| auto].
        apply filter_In in Hx. apply Heff, Hx. }
      destruct (success res); cbv beta iota in H; rewrite log_bind in H;
        apply IH in H; try assumption; cbn [rng] in H; rewrite H, R2, R1;
        (erewrite filter_ext; [| intros j; rewrite location_store_set_status; reflexivity]);
        cbn [List.length]; lia.
    + rewrite log_bind in H. apply IH in H; try assumption. cbn [rng] in H. rewrite H.
      erewrite filter_ext; [| intros j; rewrite location_store_set_status; reflexivity].
      reflexivity.
Qed.

(** ** [dispatch_hero]: draws and log lines *)


(** ** [main] *)

Definition MAIN_LOOP_LINES : list string :=
  [PROMPT_HEROES; PROMPT_AREAS; "Please enter valid numbers.";
   "Please enter values within the specified ranges."].

Ltac loop_lines :=
  repeat (apply Forall_cons; [cbn; tauto |]);
  first [apply Forall_nil | assumption].

Lemma read_config_spec (int_of_string : string -> option Z) (n : nat) :
  forall inputs, (List.length inputs <= n)%nat ->
  match fst (read_config int_of_string inputs) with
  | inr (h, a) => 1 <= h <= 5 /\ 1 <= a <= 8
  | inl e => e = KeyboardInterrupt \/ e = EOFError "EOF when reading a line"
  end
  /\ Forall (fun x => In x MAIN_LOOP_LINES) (snd (read_config int_of_string inputs)).
Proof.
  induction n as [| n IH]; intros inputs Hlen.
  - destruct inputs; [| simpl in Hlen; lia].
    cbn. split; [auto |]. loop_lines.
  - destruct inputs as [| [s1 |] rest].
    + cbn. split; [auto |]. loop_lines.
    + cbn [read_config]. destruct (int_of_string s1) as [h |].
      * destruct rest as [| [s2 |] rest'].
        -- cbn. split; [auto |]. loop_lines.
        -- destruct (int_of_string s2) as [a |].
           ++ destruct ((1 <=? h) && (h <=? 5) && (1 <=? a) && (a <=? 8)) eqn:E.
              ** cbn. repeat rewrite andb_true_iff in E. rewrite !Z.leb_le in E.
                 split; [lia |]. loop_lines.
              ** destruct (IH rest' ltac:(simpl in Hlen; lia)) as [Hr Ho].
                 destruct (read_config int_of_string rest') as [r out]. cbn in Hr, Ho |- *.
                 split; [exact Hr |]. loop_lines.
           ++ destruct (IH rest' ltac:(simpl in Hlen; lia)) as [Hr Ho].
              destruct (read_config int_of_string rest') as [r out]. cbn in Hr, Ho |- *.
              split; [exact Hr |]. loop_lines.
        -- cbn. split; [auto |]. loop_lines.
      * destruct (IH rest ltac:(simpl in Hlen; lia)) as [Hr Ho].
        destruct (read_config int_of_string rest) as [r out]. cbn in Hr, Ho |- *.
        split; [exact Hr |]. loop_lines.
    + cbn. split; [auto |]. loop_lines.
Qed.

(** [main] runs the patrol only with the configuration its input loop
    accepted, which is always valid: the run never reaches the configuration
    error, and [main] prints the run's log followed by the message matching
    the verdict ([successes > failures] and [unhandled <= 1]), then its
    closing line. *)
Theorem main_runs_valid_patrol (src : nat -> Z) (int_of_string : string -> option Z)
  (inputs : list input_line) (r0 : nat) (h a : Z) (out : list string)
  (Hcfg : read_config int_of_string inputs = (inr (h, a), out)) :
  1 <= h <= 5 /\ 1 <= a <= 8
  /\ exists p s1 s',
       patrol_phases src h a (snd (patrol_begin h a (mkSt r0 []))) = (inr p, s1)
       /\ run_patrol src h a (mkSt r0 [])
          = (inr ((failures p <? successes p) && (unhandled p <=? 1)), s')
       /\ main src int_of_string inputs r0
          = MAIN_HEADER ++ out ++ fmt [NL; "Initiating patrol sequence..."] :: log s'
            ++ [if (failures p <? successes p) && (unhandled p <=? 1)
                then fmt [NL; "Patrol completed successfully. Returning to the Batcave."]
                else fmt [NL; "Patrol encountered issues. Review the patrol log for details."];
                MAIN_FOOTER].
Proof.
  destruct (read_config_spec int_of_string (List.length inputs) inputs (le_n _)) as [Hv _].
  rewrite Hcfg in Hv. cbn in Hv. destruct Hv as [Hh Ha].
  split; [exact Hh | split; [exact Ha |]].
  set (s0 := snd (patrol_begin h a (mkSt r0 []))).
  destruct (patrol_phases_spec src h a s0 Hh Ha) as (p & s1 & Hp & _).
  destruct (patrol_body_of_phases src h a s0 s1 p Hp) as (s' & Hb).
  assert (Hrun : run_patrol src h a (mkSt r0 [])
                 = (inr ((failures p <? successes p) && (unhandled p <=? 1)), s')).
  { assert (E0 : patrol_begin h a (mkSt r0 []) = (inr tt, s0)) by reflexivity.
    unfold run_patrol. rewrite (bind_inr _ _ _ _ _ E0). unfold catch. rewrite Hb.
    reflexivity. }
  exists p, s1, s'. split; [exact Hp | split; [exact Hrun |]].
  unfold main. rewrite Hcfg, Hrun.
  destruct ((failures p <? successes p) && (unhandled p <=? 1));
    cbn [app]; rewrite <- ?app_assoc; reflexivity.
Qed.

(** When the input ends, or Ctrl-C is pressed, before a valid configuration
    has been entered, [main] never starts the patrol: it prints the prompts
    and complaints of its loop, then the abort message or the unexpected
    [EOFError], then its closing line. *)
Theorem main_no_config_no_patrol (src : nat -> Z) (int_of_string : string -> option Z)
  (inputs : list input_line) (r0 : nat) (e : input_exn) (out : list string)
  (Hcfg : read_config int_of_string inputs = (inl e, out)) :
  ((e = KeyboardInterrupt
    /\ main src int_of_string inputs r0
       = MAIN_HEADER ++ out ++ [fmt [NL; NL; "Patrol simulation aborted by user."]; MAIN_FOOTER])
   \/ (e = EOFError "EOF when reading a line"
       /\ main src int_of_string inputs r0
          = MAIN_HEADER ++ out ++ [fmt [NL; "Unexpected error: "; "EOF when reading a line"];
                                   MAIN_FOOTER]))
  /\ ~ In "===== GOTHAM NIGHT PATROL BEGINNING =====" (main src int_of_string inputs r0).
Proof.
  destruct (read_config_spec int_of_string (List.length inputs) inputs (le_n _)) as [He Ho].
  rewrite Hcfg in He, Ho. cbn in He, Ho.
  unfold main. rewrite Hcfg.
  destruct He as [-> | ->].
  - split; [left; split; reflexivity |].
    intros Hin. repeat rewrite in_app_iff in Hin.
    destruct Hin as [Hin | [Hin | Hin]].
    + vm_compute in Hin. intuition discriminate.
    + rewrite Forall_forall in Ho. apply Ho in Hin. vm_compute in Hin. intuition discriminate.
    + vm_compute in Hin. intuition discriminate.
  - split; [right; split; reflexivity |].
    intros Hin. repeat rewrite in_app_iff in Hin.
    destruct Hin as [Hin | [Hin | Hin]].
    + vm_compute in Hin. intuition discriminate.
    + rewrite Forall_forall in Ho. apply Ho in Hin. vm_compute in Hin. intuition discriminate.
    + vm_compute in Hin. intuition discriminate.
Qed.

(** ** Witnesses of the further properties *)

Lemma success_chance_monotone_witness :
  success_chance (mkHero "Robin" "Acrobatics" 7) demo_robbery
  <= success_chance (mkHero "Robin" "Acrobatics" 9) (mkCrime "Robbery" "East End" 3 "Active").
Proof.
  apply (success_chance_monotone (mkHero "Robin" "Acrobatics" 7) (mkHero "Robin" "Acrobatics" 9)
           demo_robbery (mkCrime "Robbery" "East End" 3 "Active"));
    cbn; (reflexivity || lia).
Defined.

Lemma match_hero_to_crime_best_odds_witness :
  exists b s', match_hero_to_crime [mkHero "Robin" "Acrobatics" 7; mkHero "Nightwing" "Stealth" 9;
                                     demo_batman] demo_robbery false st0 = (inr (Some b), s')
    /\ In b [mkHero "Robin" "Acrobatics" 7; mkHero "Nightwing" "Stealth" 9; demo_batman]
    /\ forall h, In h [mkHero "Robin" "Acrobatics" 7; mkHero "Nightwing" "Stealth" 9; demo_batman]
                 -> success_chance h demo_robbery <= success_chance b demo_robbery.
Proof.
  apply match_hero_to_crime_best_odds.
  - intros x Hx. cbn in Hx. destruct Hx as [<- | [<- | [<- | []]]]; cbn; intuition.
  - discriminate.
  - discriminate.
Defined.

Lemma match_hero_to_crime_drug_deal_witness :
  4 <= 5 <= 21
  /\ fst (match_hero_to_crime [mkHero "Nightwing" "Stealth" 9; mkHero "Batman" "Combat" 10]
            (mkCrime "Drug Deal" "East End" 5 "Active") true st0)
     = inr (Some (mkHero "Nightwing" "Stealth" 9)).
Proof.
  split; [lia |].
  destruct (match_hero_to_crime_drug_deal "East End" "Active" 5 true st0 ltac:(lia)) as [H _].
  exact H.
Defined.

Lemma patrol_team_from_roster_witness :
  patrol_phases demo_src 2 3 demo_s0 = (inr demo_phase, demo_s1)
  /\ Z.of_nat (List.length (selected_heroes demo_phase)) = 2.
Proof.
  split; [exact demo_phases |].
  exact (proj2 (proj2 (patrol_team_from_roster demo_src 2 3 demo_s0 demo_s1 demo_phase
                         demo_phases))).
Defined.

Lemma patrol_areas_distinct_witness :
  patrol_phases demo_src 2 3 demo_s0 = (inr demo_phase, demo_s1)
  /\ NoDup (patrol_areas demo_phase).
Proof.
  split; [exact demo_phases |].
  exact (proj1 (patrol_areas_distinct demo_src 2 3 demo_s0 demo_s1 demo_phase demo_phases)).
Defined.

Lemma patrol_crimes_reported_witness :
  patrol_phases demo_src 2 3 demo_s0 = (inr demo_phase, demo_s1)
  /\ (1 <= List.length (crime_events demo_phase) <= 3)%nat.
Proof.
  split; [exact demo_phases |].
  exact (proj1 (patrol_crimes_reported demo_src 2 3 demo_s0 demo_s1 demo_phase demo_phases)).
Defined.

Lemma dispatch_loop_one_roll_per_patrolled_crime_witness :
  demo_loop st0 = (inr demo_loop_r, demo_loop_s) /\ rng demo_loop_s = 1%nat.
Proof.
  assert (E : demo_loop st0 = (inr demo_loop_r, demo_loop_s)) by (vm_compute; reflexivity).
  split; [exact E |].
  rewrite (dispatch_loop_one_roll_per_patrolled_crime demo_src ["East End"] [0%nat; 1%nat]
             [demo_batman] [demo_robbery; demo_crime] 0 0 0 st0 demo_loop_r demo_loop_s
             ltac:(discriminate) ltac:(repeat constructor; cbn; lia) E).
  vm_compute. reflexivity.
Defined.

Lemma main_runs_valid_patrol_witness :
  read_config demo_int demo_inputs = (inr (2, 3), snd (read_config demo_int demo_inputs))
  /\ 1 <= 2 <= 5.
Proof.
  assert (Hc : read_config demo_int demo_inputs
               = (inr (2, 3), snd (read_config demo_int demo_inputs)))
    by (vm_compute; reflexivity).
  split; [exact Hc |].
  exact (proj1 (main_runs_valid_patrol demo_src demo_int demo_inputs 0 2 3 _ Hc)).
Defined.

Lemma main_no_config_no_patrol_witness :
  read_config demo_int demo_inputs_interrupted
  = (inl KeyboardInterrupt, snd (read_config demo_int demo_inputs_interrupted))
  /\ ~ In "===== GOTHAM NIGHT PATROL BEGINNING ====="
         (main demo_src demo_int demo_inputs_interrupted 0).
Proof.
  assert (Hc : read_config demo_int demo_inputs_interrupted
               = (inl KeyboardInterrupt, snd (read_config demo_int demo_inputs_interrupted)))
    by (vm_compute; reflexivity).
  split; [exact Hc |].
  exact (proj2 (main_no_config_no_patrol demo_src demo_int demo_inputs_interrupted 0 _ _ Hc)).
Defined.
